(** * pdf-to-quiz: the quiz session of [Quiz] and the validation gate of the
    generation route.

    The development embeds
    - [lib/schemas.ts]: [questionSchema] and [questionsSchema] (zod), as
      parsers over JavaScript values that return the issues zod reports;
    - the generation route ([POST]: the request it builds from the body, and
      its [onFinish] callback);
    - the lazily loading [Quiz] component: its ten [useState] cells, its
      handlers, the preloading effect and the view it renders, with
      [QuestionCard] and the explanation card;
    - components/quiz.tsx, the quiz over a fixed list of questions.

    A handler runs on the state of the render it closes over and the updates
    it enqueues are committed together, so every handler is a function from
    the committed state to the next one.  Events reach the component only
    through the buttons of the rendered view, through the effects of the last
    commit, and through the settlement of an outstanding request. *)

From Stdlib Require Import ZArith.
From stdpp Require Import base list strings gmap.

Open Scope string_scope.
Open Scope list_scope.

(** * Part I: the program *)

(** ** JavaScript values *)

#[warnings="-register-all"]
Inductive JsValue :=
| JsUndefined
| JsNull
| JsBoolean (b : bool)
| JsNumber (literal : string)
| JsString (text : string)
| JsArray (items : list JsValue)
| JsObject (fields : gmap string JsValue).

(** [obj[key]] *)
Definition property (fields : gmap string JsValue) (key : string) : JsValue :=
  default JsUndefined (fields !! key).

(** ** zod, as far as lib/schemas.ts uses it *)

Inductive ZodParsedType :=
| type_undefined | type_null | type_boolean | type_number | type_string
| type_array | type_object.

Definition getParsedType (v : JsValue) : ZodParsedType :=
  match v with
  | JsUndefined => type_undefined
  | JsNull => type_null
  | JsBoolean _ => type_boolean
  | JsNumber _ => type_number
  | JsString _ => type_string
  | JsArray _ => type_array
  | JsObject _ => type_object
  end.

Inductive PathKey :=
| Key (name : string)
| Index (i : nat).

(** The issues these schemas can raise.  [not_an_enum_string] is zod's
    [invalid_type] of an enum, whose [expected] lists the allowed values. *)
Inductive ZodIssueCode :=
| invalid_type (expected : ZodParsedType) (received : ZodParsedType)
| not_an_enum_string (allowed : list string) (received : ZodParsedType)
| invalid_enum_value (allowed : list string) (received : string)
| too_small (minimum : nat)
| too_big (maximum : nat).

Record ZodIssue := mkIssue {
  code : ZodIssueCode;
  path : list PathKey
}.

#[warnings="-register-all"]
Inductive ZodType :=
| ZodString
| ZodEnum (values : list string)
| ZodArray (element : ZodType) (exactLength : option nat)
| ZodObject (shape : list (string * ZodType)).

(** [.length(k)]: the array is too big, too small, or fine. *)
Definition lengthIssues (exactLength : option nat) (n : nat)
    (path : list PathKey) : list ZodIssue :=
  match exactLength with
  | None => []
  | Some k =>
      if decide (k < n) then [mkIssue (too_big k) path]
      else if decide (n < k) then [mkIssue (too_small k) path]
      else []
  end.

(** [schema._parse]: the issues found in [input], in the order zod adds
    them.  A value of the wrong type is reported and not looked into; an
    array of the wrong length is reported and its items are still parsed;
    an object is parsed key by key of its shape, a missing key reads as
    [undefined], and keys outside the shape are dropped without an issue. *)
Fixpoint parse (schema : ZodType) (path : list PathKey) (input : JsValue)
  : list ZodIssue :=
  match schema with
  | ZodString =>
      match input with
      | JsString _ => []
      | _ => [mkIssue (invalid_type type_string (getParsedType input)) path]
      end
  | ZodEnum values =>
      match input with
      | JsString text =>
          if bool_decide (text ∈ values) then []
          else [mkIssue (invalid_enum_value values text) path]
      | _ => [mkIssue (not_an_enum_string values (getParsedType input)) path]
      end
  | ZodArray element exactLength =>
      match input with
      | JsArray items =>
          lengthIssues exactLength (length items) path ++
          concat (imap (fun i item => parse element (path ++ [Index i]) item)
                    items)
      | _ => [mkIssue (invalid_type type_array (getParsedType input)) path]
      end
  | ZodObject shape =>
      match input with
      | JsObject fields =>
          (fix parseShape (shape : list (string * ZodType)) : list ZodIssue :=
             match shape with
             | [] => []
             | (key, keySchema) :: rest =>
                 parse keySchema (path ++ [Key key]) (property fields key) ++
                 parseShape rest
             end) shape
      | _ => [mkIssue (invalid_type type_object (getParsedType input)) path]
      end
  end.

(** [schema.safeParse(input)]: [res.error] is set exactly when there are
    issues.  The route does not read [res.data]. *)
Inductive SafeParseResult :=
| ParseSuccess
| ParseError (issues : list ZodIssue).

Definition safeParse (schema : ZodType) (input : JsValue) : SafeParseResult :=
  match parse schema [] input with
  | [] => ParseSuccess
  | issues => ParseError issues
  end.

(** lib/schemas.ts; [.describe(...)] only attaches text for the model. *)
Definition questionSchema : ZodType :=
  ZodObject
    [("question", ZodString);
     ("options", ZodArray ZodString (Some 4));
     ("answer", ZodEnum ["A"; "B"; "C"; "D"]);
     ("explanation", ZodString)].

Definition questionsSchema : ZodType := ZodArray questionSchema (Some 4).

(** ** The generation route ([POST]; its [onFinish] callback)

    [streamObject] belongs to the SDK.  What the route adds is [onFinish],
    called with the assembled [object] once the model has finished. *)

Definition newline : string := String (Ascii.ascii_of_nat 10) EmptyString.

(** How the callback ends: it returns, or it throws [new Error(message)]. *)
Inductive Completion :=
| Finished
| Failed (error : string).

Section Route.

(** The text zod gives an issue ([e.message]); zod's table of messages is
    not part of the sources. *)
Variable message : ZodIssue -> string.

Definition onFinish (object : JsValue) : Completion :=
  match safeParse questionsSchema object with
  | ParseError issues => Failed (String.concat newline (map message issues))
  | ParseSuccess => Finished
  end.

End Route.

(** ** What the specification calls a batch

    Written after the specification, not after the schema: an array of
    exactly 4 Questions, where a Question has a string [question], exactly 4
    string [options], an [answer] among A, B, C, D and a string
    [explanation]. *)

Definition isText (v : JsValue) : bool :=
  match v with JsString _ => true | _ => false end.

Definition isQuestionValue (v : JsValue) : bool :=
  match v with
  | JsObject fields =>
      isText (property fields "question")
      && match property fields "options" with
         | JsArray opts => bool_decide (length opts = 4) && forallb isText opts
         | _ => false
         end
      && match property fields "answer" with
         | JsString label => bool_decide (label ∈ ["A"; "B"; "C"; "D"])
         | _ => false
         end
      && isText (property fields "explanation")
  | _ => false
  end.

Definition isBatchOfFour (v : JsValue) : bool :=
  match v with
  | JsArray items =>
      bool_decide (length items = 4) && forallb isQuestionValue items
  | _ => false
  end.

(** A question as the model sends it. *)
Definition jsQuestion (text : string) (opts : list string) (label : string)
    (why : string) : JsValue :=
  JsObject
    (list_to_map
       [("question", JsString text);
        ("options", JsArray (JsString <$> opts));
        ("answer", JsString label);
        ("explanation", JsString why)]).

Definition goodQuestion : JsValue :=
  jsQuestion "Which one?" ["first"; "second"; "third"; "fourth"] "B" "Because.".

(** Only three options. *)
Definition shortQuestion : JsValue :=
  jsQuestion "Which one?" ["first"; "second"; "third"] "B" "Because.".

Definition malformedBatch : JsValue :=
  JsArray [goodQuestion; shortQuestion; goodQuestion; goodQuestion].

(** ** Questions (lib/schemas.ts, [type Question]) *)

Record Question := mkQuestion {
  question : string;
  options : list string;
  answer : string;
  explanation : string
}.

(** ** JavaScript arrays with holes

    [answers] starts as [[]] and is written by index, so an entry may be
    missing: [None] is a hole (it reads as [undefined]). *)

(** [arr[i] = v] on a copy: inside the array the entry is replaced, beyond
    its end the array is extended with holes up to [i]. *)
Definition array_assign {A} (arr : list (option A)) (i : nat) (v : A)
  : list (option A) :=
  if decide (i < length arr) then <[i := Some v]> arr
  else arr ++ replicate (i - length arr) None ++ [Some v].

(** [arr[i]], where a hole and an index out of range both read as
    [undefined]. *)
Definition array_get {A} (arr : list (option A)) (i : nat) : option A :=
  mjoin (arr !! i).

(** [s.includes(sub)] *)
Fixpoint includes (s sub : string) : bool :=
  String.prefix sub s ||
  match s with
  | EmptyString => false
  | String _ s' => includes s' sub
  end.

(** ** The state of [Quiz] *)

(** The value of the progress bar is a floating-point number; it is kept as
    the expression that produced it: the literal [0], or
    [(index / total) * 100]. *)
Inductive ProgressValue :=
| ProgressZero
| ProgressPercent (index total : nat).

Record QuizState := mkQuizState {
  questions : list Question;
  currentQuestionIndex : nat;
  answers : list (option string);
  score : nat;
  hasAnswered : bool;
  isComplete : bool;
  progress : ProgressValue;
  feedbackMessage : string;
  isLoadingMore : bool;
  showExplanation : bool
}.

(** The setters of the [useState] cells.  [setQuestions] and [setScore] take
    an updater, as the component calls them with one. *)

Definition setQuestions (f : list Question -> list Question) (s : QuizState) :=
  mkQuizState (f (questions s)) (currentQuestionIndex s) (answers s) (score s)
    (hasAnswered s) (isComplete s) (progress s) (feedbackMessage s)
    (isLoadingMore s) (showExplanation s).

Definition setCurrentQuestionIndex (i : nat) (s : QuizState) :=
  mkQuizState (questions s) i (answers s) (score s)
    (hasAnswered s) (isComplete s) (progress s) (feedbackMessage s)
    (isLoadingMore s) (showExplanation s).

Definition setAnswers (a : list (option string)) (s : QuizState) :=
  mkQuizState (questions s) (currentQuestionIndex s) a (score s)
    (hasAnswered s) (isComplete s) (progress s) (feedbackMessage s)
    (isLoadingMore s) (showExplanation s).

Definition setScore (f : nat -> nat) (s : QuizState) :=
  mkQuizState (questions s) (currentQuestionIndex s) (answers s) (f (score s))
    (hasAnswered s) (isComplete s) (progress s) (feedbackMessage s)
    (isLoadingMore s) (showExplanation s).

Definition setHasAnswered (b : bool) (s : QuizState) :=
  mkQuizState (questions s) (currentQuestionIndex s) (answers s) (score s)
    b (isComplete s) (progress s) (feedbackMessage s)
    (isLoadingMore s) (showExplanation s).

Definition setIsComplete (b : bool) (s : QuizState) :=
  mkQuizState (questions s) (currentQuestionIndex s) (answers s) (score s)
    (hasAnswered s) b (progress s) (feedbackMessage s)
    (isLoadingMore s) (showExplanation s).

Definition setProgress (p : ProgressValue) (s : QuizState) :=
  mkQuizState (questions s) (currentQuestionIndex s) (answers s) (score s)
    (hasAnswered s) (isComplete s) p (feedbackMessage s)
    (isLoadingMore s) (showExplanation s).

Definition setFeedbackMessage (m : string) (s : QuizState) :=
  mkQuizState (questions s) (currentQuestionIndex s) (answers s) (score s)
    (hasAnswered s) (isComplete s) (progress s) m
    (isLoadingMore s) (showExplanation s).

Definition setIsLoadingMore (b : bool) (s : QuizState) :=
  mkQuizState (questions s) (currentQuestionIndex s) (answers s) (score s)
    (hasAnswered s) (isComplete s) (progress s) (feedbackMessage s)
    b (showExplanation s).

Definition setShowExplanation (b : bool) (s : QuizState) :=
  mkQuizState (questions s) (currentQuestionIndex s) (answers s) (score s)
    (hasAnswered s) (isComplete s) (progress s) (feedbackMessage s)
    (isLoadingMore s) b.

(** The state of the first render: [useState(initialQuestions)],
    [useState(0)], [useState([])], ... *)
Definition initialState (initialQuestions : list Question) : QuizState :=
  mkQuizState initialQuestions 0 [] 0 false false ProgressZero "" false false.

(** ** Handlers *)

(** What running a handler yields: it returns, or it throws after having
    enqueued some updates (which are committed all the same). *)
Inductive Outcome :=
| Returned (s : QuizState)
| Threw (s : QuizState) (error : string).

Definition stateOf (o : Outcome) : QuizState :=
  match o with Returned s => s | Threw s _ => s end.

Definition TypeError_undefined : string :=
  "TypeError: Cannot read properties of undefined".

Definition msgCorrect : string := "Correct! 🎉".

Definition msgIncorrect (correct : string) : string :=
  "Incorrect. The correct answer was " +:+ correct.

(** [handleSelectAnswer] *)
Definition handleSelectAnswer (label : string) (s : QuizState) : Outcome :=
  if negb (hasAnswered s) then
    let newAnswers := array_assign (answers s) (currentQuestionIndex s) label in
    let s1 := setHasAnswered true (setAnswers newAnswers s) in
    match questions s !! currentQuestionIndex s with
    | None => Threw s1 TypeError_undefined
    | Some q =>
        if String.eqb label (answer q) then
          Returned (setFeedbackMessage msgCorrect (setScore S s1))
        else
          Returned (setFeedbackMessage (msgIncorrect (answer q)) s1)
    end
  else Returned s.

(** [handleNextQuestion] *)
Definition handleNextQuestion (s : QuizState) : QuizState :=
  setShowExplanation false
    (setFeedbackMessage ""
      (setHasAnswered false
        (setCurrentQuestionIndex (currentQuestionIndex s + 1) s))).

(** [handleShowResults] *)
Definition handleShowResults (s : QuizState) : QuizState :=
  setIsComplete true s.

(** [handleReset]; [initialQuestions] is the [questions] prop. *)
Definition handleReset (initialQuestions : list Question) (s : QuizState)
  : QuizState :=
  setShowExplanation false
    (setQuestions (fun _ => initialQuestions)
      (setProgress ProgressZero
        (setIsComplete false
          (setHasAnswered false
            (setScore (fun _ => 0)
              (setCurrentQuestionIndex 0
                (setAnswers [] s))))))).

(** ** The preloading effect, [loadMoreIfNeeded] *)

(** The guard [currentQuestionIndex >= questions.length - 2 &&
    !isLoadingMore && !isComplete]; the subtraction is on integers, it can
    be negative. *)
Definition shouldLoadMore (s : QuizState) : bool :=
  (Z.of_nat (length (questions s)) - 2 <=? Z.of_nat (currentQuestionIndex s))%Z
  && negb (isLoadingMore s) && negb (isComplete s).

(** Up to the [await]: the flag is raised and the request is issued, or
    nothing happens. *)
Definition loadMore_begin (s : QuizState) : option QuizState :=
  if shouldLoadMore s then Some (setIsLoadingMore true s) else None.

(** After the [await], when the request resolved with [newQuestions]. *)
Definition loadMore_resolved (newQuestions : list Question) (s : QuizState)
  : QuizState :=
  setIsLoadingMore false
    (setQuestions (fun prevQuestions => prevQuestions ++ newQuestions) s).

Definition msgLoadFailed : string := "Failed to load more questions:".

(** After the [await], when the request was rejected: the [catch] block
    logs, and the flag is lowered.  The result is the state and the line
    written to the console. *)
Definition loadMore_rejected (s : QuizState) : QuizState * string :=
  (setIsLoadingMore false s, msgLoadFailed).

(** The effect that refreshes the progress bar (the body of its timer). *)
Definition progressTimer (s : QuizState) : QuizState :=
  setProgress
    (ProgressPercent (currentQuestionIndex s) (length (questions s))) s.

(** ** The rendered view *)

Definition answerLabels : list string := ["A"; "B"; "C"; "D"].

(** What the component shows.  On the question screen: the labels of the
    option buttons, the feedback line, whether the explain and the next
    buttons are there (the results button always is).  On the results
    screen: the props handed to [QuizScore] and to [QuizReview] (the reset
    button always is there). *)
Inductive View :=
| QuestionScreen (progressBar : ProgressValue) (current : Question)
    (optionLabels : list string) (feedback : option string)
    (explainButton : bool) (explanationCard : bool) (nextButton : bool)
| ResultsScreen (correctAnswers totalQuestions : nat)
    (reviewQuestions : list Question) (userAnswers : list (option string)).

(** The body of [Quiz] after the hooks.  While the quiz is not complete
    [QuestionCard] reads [question.question] and [question.options] of
    [questions[currentQuestionIndex]]: with no question at that index the
    render throws, which is [None] here.  One button per option, labelled
    [answerLabels[index]]; the schema gives a question exactly four options,
    and an option beyond the fourth, which would carry no label, gets no
    button here. *)
Definition render (s : QuizState) : option View :=
  if negb (isComplete s) then
    match questions s !! currentQuestionIndex s with
    | None => None
    | Some currentQuestion =>
        Some (QuestionScreen (progress s) currentQuestion
                (take (length (options currentQuestion)) answerLabels)
                (if hasAnswered s then Some (feedbackMessage s) else None)
                (hasAnswered s
                 && negb (includes (feedbackMessage s) "Correct")
                 && negb (showExplanation s))
                (hasAnswered s && showExplanation s)
                (hasAnswered s))
    end
  else
    Some (ResultsScreen (score s) (length (answers s))
            (take (length (answers s)) (questions s)) (answers s)).

(** Modelled from the spec: the [QuizReview] component (./quiz-overview) is
    not among the sources.  The review shows one row per question it is
    given, next to the answer recorded at the same index. *)
Definition reviewRows (reviewQuestions : list Question)
    (userAnswers : list (option string)) : list (Question * option string) :=
  imap (fun i q => (q, array_get userAnswers i)) reviewQuestions.

(** ** The session: the component together with its environment *)

(** [outstanding] counts the requests [onNeedMoreQuestions()] that were
    issued and have not settled; [console] is what was logged. *)
Record Session := mkSession {
  ui : QuizState;
  outstanding : nat;
  console : list string
}.

Inductive Event :=
| ClickOption (label : string)
| ClickExplain
| ClickNext
| ClickShowResults
| ClickReset
| LoadMoreEffect
| RequestResolved (newQuestions : list Question)
| RequestRejected
| ProgressTimer.

Section Session.

(** The [questions] prop of the component. *)
Variable initialQuestions : list Question.

Definition mount : Session := mkSession (initialState initialQuestions) 0 [].

(** An option button calls [!showCorrectAnswer && onSelectAnswer(label)]. *)
Definition clickOption (label : string) (s : QuizState) : Outcome :=
  if negb (hasAnswered s) then handleSelectAnswer label s else Returned s.

(** One event.  [None]: the event cannot happen in this state.
    - Nothing happens to a component whose render threw.
    - The preloading effect belongs to the commit: while its guard holds it
      runs before any click or timer is handled.
    - A click needs its button on the screen.
    - A request settles only while one is outstanding. *)
Definition dispatch (e : Event) (σ : Session) : option Session :=
  let s := ui σ in
  match render s with
  | None => None
  | Some view =>
      match e with
      | LoadMoreEffect =>
          match loadMore_begin s with
          | Some s' => Some (mkSession s' (S (outstanding σ)) (console σ))
          | None => None
          end
      | RequestResolved newQuestions =>
          match outstanding σ with
          | O => None
          | S n =>
              Some (mkSession (loadMore_resolved newQuestions s) n (console σ))
          end
      | RequestRejected =>
          match outstanding σ with
          | O => None
          | S n =>
              let '(s', line) := loadMore_rejected s in
              Some (mkSession s' n (console σ ++ [line]))
          end
      | _ =>
          if shouldLoadMore s then None else
          match e, view with
          | ClickOption label, QuestionScreen _ _ labels _ _ _ _ =>
              if bool_decide (label ∈ labels) then
                match clickOption label s with
                | Returned s' => Some (mkSession s' (outstanding σ) (console σ))
                | Threw s' err =>
                    Some (mkSession s' (outstanding σ) (console σ ++ [err]))
                end
              else None
          | ClickExplain, QuestionScreen _ _ _ _ true _ _ =>
              Some (mkSession (setShowExplanation true s)
                      (outstanding σ) (console σ))
          | ClickNext, QuestionScreen _ _ _ _ _ _ true =>
              Some (mkSession (handleNextQuestion s)
                      (outstanding σ) (console σ))
          | ClickShowResults, QuestionScreen _ _ _ _ _ _ _ =>
              Some (mkSession (handleShowResults s)
                      (outstanding σ) (console σ))
          | ClickReset, ResultsScreen _ _ _ _ =>
              Some (mkSession (handleReset initialQuestions s)
                      (outstanding σ) (console σ))
          | ProgressTimer, _ =>
              Some (mkSession (progressTimer s) (outstanding σ) (console σ))
          | _, _ => None
          end
      end
  end.

(** A sequence of events, from left to right. *)
Fixpoint run (events : list Event) (σ : Session) : option Session :=
  match events with
  | [] => Some σ
  | e :: rest =>
      match dispatch e σ with
      | Some σ' => run rest σ'
      | None => None
      end
  end.

(** The sessions a mounted component can be in. *)
Inductive reachable : Session -> Prop :=
| reachable_mount : reachable mount
| reachable_step σ e σ' :
    reachable σ -> dispatch e σ = Some σ' -> reachable σ'.

End Session.

(** ** Counting answers *)

(** In the question list [qs] with the answers [ans], the question at index
    [i] has a recorded answer and it is the right one. *)
Definition correctAt (qs : list Question) (ans : list (option string))
    (i : nat) : bool :=
  match array_get ans i, qs !! i with
  | Some label, Some q => String.eqb label (answer q)
  | _, _ => false
  end.

Definition correctIn (qs : list Question) (ans : list (option string))
  : list nat :=
  List.filter (correctAt qs ans) (seq 0 (length ans)).

(** The indices with a recorded answer whose label equals
    [questions[i].answer]. *)
Definition correctIndices (s : QuizState) : list nat :=
  correctIn (questions s) (answers s).

(** The labels that were recorded, in index order. *)
Definition recordedAnswers (s : QuizState) : list string :=
  omap id (answers s).

(** ** Sample data *)

Definition sampleQuestion (correct : string) : Question :=
  mkQuestion "Which one?" ["first"; "second"; "third"; "fourth"] correct
    "Because.".

Definition sampleBatch : list Question :=
  [sampleQuestion "A"; sampleQuestion "B"; sampleQuestion "C";
   sampleQuestion "D"].

(** ** The component without preloading (components/quiz.tsx)

    There [questions] is a prop and the next button stops at the last
    question. *)
Module FixedQuiz.

Definition handleNextQuestion (s : QuizState) : QuizState :=
  if (Z.of_nat (currentQuestionIndex s)
      <? Z.of_nat (length (questions s)) - 1)%Z
  then setHasAnswered false
         (setCurrentQuestionIndex (currentQuestionIndex s + 1) s)
  else setIsComplete true s.

End FixedQuiz.

(** ** Sample sessions *)

(** The first two questions answered ("A" is right, then "A" is wrong), the
    third one on the screen and the preloading request issued. *)
Definition eventsUntilThird : list Event :=
  [ClickOption "A"; ClickNext; ClickOption "A"; ClickNext; LoadMoreEffect].

Definition sessionAt (events : list Event) : Session :=
  default (mount sampleBatch) (run sampleBatch events (mount sampleBatch)).

Definition loadingSession : Session :=
  Eval cbv in sessionAt eventsUntilThird.

(** The third question answered as well, and a second batch received. *)
Definition grownSession : Session :=
  Eval cbv in
    sessionAt (eventsUntilThird ++
               [ClickOption "C"; RequestResolved sampleBatch]).

(** The request still outstanding when the last known question has been
    answered, and the next button pressed. *)
Definition pastTheEndSession : Session :=
  Eval cbv in
    sessionAt (eventsUntilThird ++
               [ClickOption "C"; ClickNext; ClickOption "B"; ClickNext]).

(** [loadingSession] after its request was rejected. *)
Definition failedSession : Session :=
  Eval cbv in sessionAt (eventsUntilThird ++ [RequestRejected]).

(** ** The invariant of the session *)

Record Inv (σ : Session) : Prop := mkInv {
  inv_position :
    length (answers (ui σ)) =
    currentQuestionIndex (ui σ) + (if hasAnswered (ui σ) then 1 else 0);
  inv_dense : Forall is_Some (answers (ui σ));
  inv_known : length (answers (ui σ)) <= length (questions (ui σ));
  inv_score : score (ui σ) = length (correctIndices (ui σ));
  inv_flight : outstanding σ = if isLoadingMore (ui σ) then 1 else 0
}.

(** ** The events, case by case

    [dispatch] read as a relation: what each event needs and what it
    leaves. *)
Inductive step (initialQuestions : list Question)
  : Session -> Event -> Session -> Prop :=
| step_answer σ label q s' :
    isComplete (ui σ) = false ->
    questions (ui σ) !! currentQuestionIndex (ui σ) = Some q ->
    shouldLoadMore (ui σ) = false ->
    label ∈ take (length (options q)) answerLabels ->
    hasAnswered (ui σ) = false ->
    handleSelectAnswer label (ui σ) = Returned s' ->
    step initialQuestions σ (ClickOption label)
      (mkSession s' (outstanding σ) (console σ))
| step_answer_again σ label q :
    isComplete (ui σ) = false ->
    questions (ui σ) !! currentQuestionIndex (ui σ) = Some q ->
    shouldLoadMore (ui σ) = false ->
    label ∈ take (length (options q)) answerLabels ->
    hasAnswered (ui σ) = true ->
    step initialQuestions σ (ClickOption label)
      (mkSession (ui σ) (outstanding σ) (console σ))
| step_explain σ q :
    isComplete (ui σ) = false ->
    questions (ui σ) !! currentQuestionIndex (ui σ) = Some q ->
    shouldLoadMore (ui σ) = false ->
    hasAnswered (ui σ) = true ->
    includes (feedbackMessage (ui σ)) "Correct" = false ->
    showExplanation (ui σ) = false ->
    step initialQuestions σ ClickExplain
      (mkSession (setShowExplanation true (ui σ)) (outstanding σ) (console σ))
| step_next σ q :
    isComplete (ui σ) = false ->
    questions (ui σ) !! currentQuestionIndex (ui σ) = Some q ->
    shouldLoadMore (ui σ) = false ->
    hasAnswered (ui σ) = true ->
    step initialQuestions σ ClickNext
      (mkSession (handleNextQuestion (ui σ)) (outstanding σ) (console σ))
| step_results σ q :
    isComplete (ui σ) = false ->
    questions (ui σ) !! currentQuestionIndex (ui σ) = Some q ->
    shouldLoadMore (ui σ) = false ->
    step initialQuestions σ ClickShowResults
      (mkSession (handleShowResults (ui σ)) (outstanding σ) (console σ))
| step_reset σ :
    isComplete (ui σ) = true ->
    step initialQuestions σ ClickReset
      (mkSession (handleReset initialQuestions (ui σ))
         (outstanding σ) (console σ))
| step_effect σ :
    is_Some (render (ui σ)) ->
    shouldLoadMore (ui σ) = true ->
    step initialQuestions σ LoadMoreEffect
      (mkSession (setIsLoadingMore true (ui σ))
         (S (outstanding σ)) (console σ))
| step_resolved σ newQuestions n :
    is_Some (render (ui σ)) ->
    outstanding σ = S n ->
    step initialQuestions σ (RequestResolved newQuestions)
      (mkSession (loadMore_resolved newQuestions (ui σ)) n (console σ))
| step_rejected σ n :
    is_Some (render (ui σ)) ->
    outstanding σ = S n ->
    step initialQuestions σ RequestRejected
      (mkSession (setIsLoadingMore false (ui σ)) n
         (console σ ++ [msgLoadFailed]))
| step_timer σ :
    is_Some (render (ui σ)) ->
    shouldLoadMore (ui σ) = false ->
    step initialQuestions σ ProgressTimer
      (mkSession (progressTimer (ui σ)) (outstanding σ) (console σ)).

(** What else every reachable session satisfies. *)
Record Facts (initialQuestions : list Question) (σ : Session) : Prop :=
  mkFacts {
  fact_console : Forall (fun line => line = msgLoadFailed) (console σ);
  fact_labels : Forall (fun label => label ∈ answerLabels)
                  (recordedAnswers (ui σ));
  fact_feedback :
    hasAnswered (ui σ) = true ->
    exists q label,
      questions (ui σ) !! currentQuestionIndex (ui σ) = Some q /\
      array_get (answers (ui σ)) (currentQuestionIndex (ui σ)) = Some label /\
      feedbackMessage (ui σ) =
        if String.eqb label (answer q) then msgCorrect
        else msgIncorrect (answer q);
  fact_prefix : exists more, questions (ui σ) = initialQuestions ++ more;
  fact_progress :
    match progress (ui σ) with
    | ProgressZero => True
    | ProgressPercent index total => index < total
    end;
  fact_complete :
    isComplete (ui σ) = true ->
    currentQuestionIndex (ui σ) < length (questions (ui σ))
}.

(** [loadingSession] after the timer of the progress bar has fired. *)
Definition tickedSession : Session :=
  Eval cbv in sessionAt (eventsUntilThird ++ [ProgressTimer]).

(** ** [QuestionCard] and the explanation card *)

(** The background of an option button: green for the right option and red
    for a wrong selection once the answer is shown, the hover colour for the
    others; before that, the secondary colour for the selected option. *)
Inductive ButtonStyle :=
| StyleCorrect
| StyleIncorrect
| StyleHover
| StyleSelected
| StylePlain.

(** One option button: its label ([None]: [answerLabels[index]] is
    [undefined], beyond the fourth option), the option it shows, its
    background, the check and the cross icon, and whether a click on it
    reaches [onSelectAnswer]. *)
Record OptionButton := mkOptionButton {
  buttonLabel : option string;
  buttonText : string;
  buttonStyle : ButtonStyle;
  checkIcon : bool;
  crossIcon : bool;
  clickSelects : bool
}.

(** [QuestionCard]; [selectedAnswer] is [answers[currentQuestionIndex]],
    [None] while it is [undefined].  [===] between a label and an answer is
    equality of the two, an [undefined] label being equal to an [undefined]
    answer only. *)
Definition QuestionCard (q : Question) (selectedAnswer : option string)
    (showCorrectAnswer : bool) : list OptionButton :=
  imap
    (fun index option =>
       let currentLabel := answerLabels !! index in
       let isCorrect := bool_decide (currentLabel = Some (answer q)) in
       let isSelected := bool_decide (currentLabel = selectedAnswer) in
       let isIncorrectSelection := isSelected && negb isCorrect in
       mkOptionButton currentLabel option
         (if showCorrectAnswer then
            if isCorrect then StyleCorrect
            else if isIncorrectSelection then StyleIncorrect
            else StyleHover
          else if isSelected then StyleSelected else StylePlain)
         (showCorrectAnswer && isCorrect)
         (showCorrectAnswer && isIncorrectSelection)
         (negb showCorrectAnswer))
    (options q).

(** [labels.indexOf(x)]: the first index of [x], or -1. *)
Definition indexOf (labels : list string) (x : option string) : Z :=
  match x with
  | None => -1
  | Some label =>
      match list_find (fun l => l = label) labels with
      | Some (i, _) => Z.of_nat i
      | None => -1
      end
  end.

(** [arr[i]] for a number [i]: [undefined] below 0 and beyond the end. *)
Definition at_index {A} (arr : list A) (i : Z) : option A :=
  if (i <? 0)%Z then None else arr !! Z.to_nat i.

(** What the explanation card prints: the explanation, then "Your answer:
    Option <label> - <option>" and "Correct answer: Option <label> -
    <option>", a missing part being [undefined]. *)
Record ExplanationCard := mkExplanationCard {
  cardExplanation : string;
  yourLabel : option string;
  yourOption : option string;
  correctLabel : string;
  correctOption : option string
}.

Definition explanationCard (q : Question) (userAnswer : option string)
  : ExplanationCard :=
  mkExplanationCard (explanation q)
    userAnswer
    (at_index (options q) (indexOf answerLabels userAnswer))
    (answer q)
    (at_index (options q) (indexOf answerLabels (Some (answer q)))).

(** ** components/quiz.tsx in full: the quiz over a fixed list

    [questions] is a prop; the state has seven cells.  An entry [None] of
    [answers] is [null] here: the array starts as
    [Array(questions.length).fill(null)]. *)
Module PlainQuiz.

Record State := mkState {
  currentQuestionIndex : nat;
  answers : list (option string);
  score : nat;
  hasAnswered : bool;
  isComplete : bool;
  progress : ProgressValue;
  feedbackMessage : string
}.

Definition setCurrentQuestionIndex (i : nat) (s : State) :=
  mkState i (answers s) (score s) (hasAnswered s) (isComplete s)
    (progress s) (feedbackMessage s).

Definition setAnswers (a : list (option string)) (s : State) :=
  mkState (currentQuestionIndex s) a (score s) (hasAnswered s) (isComplete s)
    (progress s) (feedbackMessage s).

Definition setScore (f : nat -> nat) (s : State) :=
  mkState (currentQuestionIndex s) (answers s) (f (score s)) (hasAnswered s)
    (isComplete s) (progress s) (feedbackMessage s).

Definition setHasAnswered (b : bool) (s : State) :=
  mkState (currentQuestionIndex s) (answers s) (score s) b (isComplete s)
    (progress s) (feedbackMessage s).

Definition setIsComplete (b : bool) (s : State) :=
  mkState (currentQuestionIndex s) (answers s) (score s) (hasAnswered s) b
    (progress s) (feedbackMessage s).

Definition setProgress (p : ProgressValue) (s : State) :=
  mkState (currentQuestionIndex s) (answers s) (score s) (hasAnswered s)
    (isComplete s) p (feedbackMessage s).

Definition setFeedbackMessage (m : string) (s : State) :=
  mkState (currentQuestionIndex s) (answers s) (score s) (hasAnswered s)
    (isComplete s) (progress s) m.

Inductive Outcome :=
| Returned (s : State)
| Threw (s : State) (error : string).

Definition stateOf (o : Outcome) : State :=
  match o with Returned s => s | Threw s _ => s end.

Inductive View :=
| QuestionScreen (progressBar : ProgressValue) (current : Question)
    (optionLabels : list string) (feedback : option string)
    (position total : nat) (nextButton : option string)
| ResultsScreen (correctAnswers totalQuestions : nat)
    (reviewQuestions : list Question) (userAnswers : list (option string)).

Inductive Event :=
| ClickOption (label : string)
| ClickNext
| ClickReset
| ProgressTimer.

Section Component.

Variable questions : list Question.

Definition initialState : State :=
  mkState 0 (replicate (length questions) None) 0 false false ProgressZero "".

(** [handleSelectAnswer] *)
Definition handleSelectAnswer (label : string) (s : State) : Outcome :=
  if negb (hasAnswered s) then
    let newAnswers := array_assign (answers s) (currentQuestionIndex s) label in
    let s1 := setHasAnswered true (setAnswers newAnswers s) in
    match questions !! currentQuestionIndex s with
    | None => Threw s1 TypeError_undefined
    | Some q =>
        if String.eqb label (answer q) then
          Returned (setFeedbackMessage msgCorrect (setScore S s1))
        else
          Returned (setFeedbackMessage (msgIncorrect (answer q)) s1)
    end
  else Returned s.

(** [handleNextQuestion]: one step on, or the end of the quiz. *)
Definition handleNextQuestion (s : State) : State :=
  if (Z.of_nat (currentQuestionIndex s) <? Z.of_nat (length questions) - 1)%Z
  then setHasAnswered false
         (setCurrentQuestionIndex (currentQuestionIndex s + 1) s)
  else setIsComplete true s.

(** [handleReset] *)
Definition handleReset (s : State) : State :=
  setProgress ProgressZero
    (setIsComplete false
      (setHasAnswered false
        (setScore (fun _ => 0)
          (setCurrentQuestionIndex 0
            (setAnswers (replicate (length questions) None) s))))).

(** The handlers of the next and of the reset button: both also clear the
    feedback. *)
Definition clickNext (s : State) : State :=
  setFeedbackMessage "" (handleNextQuestion s).

Definition clickReset (s : State) : State :=
  setFeedbackMessage "" (handleReset s).

Definition progressTimer (s : State) : State :=
  setProgress (ProgressPercent (currentQuestionIndex s) (length questions)) s.

(** The body of the component.  The next button reads "See Results" on the
    last question.  The results screen shows every question. *)
Definition render (s : State) : option View :=
  if negb (isComplete s) then
    match questions !! currentQuestionIndex s with
    | None => None
    | Some currentQuestion =>
        Some (QuestionScreen (progress s) currentQuestion
                (take (length (options currentQuestion)) answerLabels)
                (if hasAnswered s then Some (feedbackMessage s) else None)
                (currentQuestionIndex s + 1) (length questions)
                (if hasAnswered s then
                   Some (if bool_decide (Z.of_nat (currentQuestionIndex s) =
                                         (Z.of_nat (length questions) - 1)%Z)
                         then "See Results" else "Next Question")
                 else None))
    end
  else
    Some (ResultsScreen (score s) (length questions) questions (answers s)).

(** One event; [None]: it cannot happen in this state. *)
Definition dispatch (e : Event) (s : State) : option State :=
  match render s with
  | None => None
  | Some view =>
      match e, view with
      | ClickOption label, QuestionScreen _ _ labels _ _ _ _ =>
          if bool_decide (label ∈ labels) then
            if negb (hasAnswered s)
            then Some (stateOf (handleSelectAnswer label s))
            else Some s
          else None
      | ClickNext, QuestionScreen _ _ _ _ _ _ (Some _) => Some (clickNext s)
      | ClickReset, ResultsScreen _ _ _ _ => Some (clickReset s)
      | ProgressTimer, _ => Some (progressTimer s)
      | _, _ => None
      end
  end.

Fixpoint run (events : list Event) (s : State) : option State :=
  match events with
  | [] => Some s
  | e :: rest =>
      match dispatch e s with
      | Some s' => run rest s'
      | None => None
      end
  end.

Inductive reachable : State -> Prop :=
| reachable_mount : reachable initialState
| reachable_step s e s' :
    reachable s -> dispatch e s = Some s' -> reachable s'.

(** What every reachable state satisfies. *)
Record Inv (s : State) : Prop := mkInv {
  inv_slots : length (answers s) = length questions;
  inv_inside : currentQuestionIndex s < length questions \/ questions = [];
  inv_answered :
    forall i, is_Some (array_get (answers s) i) <->
              i < currentQuestionIndex s + (if hasAnswered s then 1 else 0);
  inv_complete :
    isComplete s = true ->
    currentQuestionIndex s + 1 = length questions /\ hasAnswered s = true;
  inv_score : score s = length (correctIn questions (answers s))
}.

End Component.

(** All four questions of [sampleBatch] answered, two of them right, and
    the results asked for. *)
Definition finishedState : State :=
  Eval cbv in
    default (initialState sampleBatch)
      (run sampleBatch
         [ClickOption "A"; ClickNext; ClickOption "A"; ClickNext;
          ClickOption "C"; ClickNext; ClickOption "B"; ClickNext]
         (initialState sampleBatch)).

End PlainQuiz.

(** ** The request the route sends ([POST] up to [streamObject])

    [None] stands for the [TypeError] of reading a property of [undefined]
    or [null]. *)

(** [v.name] for a name that no built-in prototype defines ([files],
    [data]): an own property of an object, [undefined] on any other
    value. *)
Definition getNamed (name : string) (v : JsValue) : option JsValue :=
  match v with
  | JsUndefined | JsNull => None
  | JsObject fields => Some (property fields name)
  | _ => Some JsUndefined
  end.

(** [v[0]]: the first item of an array, the first character of a string,
    the property ["0"] of an object. *)
Definition getFirst (v : JsValue) : option JsValue :=
  match v with
  | JsUndefined | JsNull => None
  | JsArray items => Some (default JsUndefined (items !! 0))
  | JsString text =>
      Some (match text with
            | EmptyString => JsUndefined
            | String c _ => JsString (String c EmptyString)
            end)
  | JsObject fields => Some (property fields "0")
  | _ => Some JsUndefined
  end.

(** The system message, line by line; every line ends with a newline. *)
Definition systemPrompt : string :=
  String.concat ""
    (map (fun line => line +:+ newline)
       ["You are an expert educator. Your task is to analyze the document and:";
        "1. Identify key learning objectives and core concepts";
        "2. Create challenging multiple choice questions that test understanding of these concepts";
        "3. Focus on comprehension, application, and analysis rather than simple recall";
        "4. Avoid superficial questions about formatting, authors, or publication details";
        "5. Ensure each question has 4 well-crafted options of similar length";
        "6. Make incorrect options plausible but clearly wrong to those who understand the concept";
        "7. For each question, provide a detailed explanation that:";
        "   - Explains why the correct answer is right";
        "   - Connects the answer to the core concept being tested";
        "   - Helps learners understand common misconceptions";
        "   - Uses examples or analogies when helpful"]).

Definition userPrompt : string :=
  "Create 4 high-quality multiple choice questions based on the core concepts in this document. Include detailed explanations for each question.".

(** The arguments of [streamObject] (without [onFinish], see above). *)
Record GenerationRequest := mkGenerationRequest {
  requestModel : string;
  requestSystem : string;
  requestText : string;
  requestFile : JsValue;
  requestMimeType : string;
  requestSchema : ZodType;
  requestOutput : string
}.

(** [POST], given the parsed body of the request: [const { files } = body;
    const firstFile = files[0].data], then the call. *)
Definition POST_request (body : JsValue) : option GenerationRequest :=
  files ← getNamed "files" body;
  first ← getFirst files;
  firstFile ← getNamed "data" first;
  Some (mkGenerationRequest "gemini-1.5-pro-latest" systemPrompt userPrompt
          firstFile "application/pdf" questionSchema "array").

(** A body with the given files. *)
Definition uploadBody (files : list JsValue) : JsValue :=
  JsObject {[ "files" := JsArray files ]}.

(** A file as the upload form encodes it. *)
Definition uploadedFile (name data : string) : JsValue :=
  JsObject
    (list_to_map
       [("name", JsString name); ("type", JsString "application/pdf");
        ("data", JsString data)]).

(** A typed question as a JavaScript value. *)
Definition toJs (q : Question) : JsValue :=
  jsQuestion (question q) (options q) (answer q) (explanation q).

(** * Part II: properties *)

(** ** The schema *)

Lemma parse_string_nil (path : list PathKey) (v : JsValue) :
  parse ZodString path v = [] <-> isText v = true.
Proof. by destruct v. Qed.

Lemma lengthIssues_nil (k n : nat) (path : list PathKey) :
  lengthIssues (Some k) n path = [] <-> n = k.
Proof.
  unfold lengthIssues. repeat case_decide; split; intros; done || lia.
Qed.

Lemma concat_imap_nil {A B} (f : nat -> A -> list B) (P : A -> bool)
    (l : list A) :
  (forall i x, f i x = [] <-> P x = true) ->
  concat (imap f l) = [] <-> forallb P l = true.
Proof.
  revert f. induction l as [|x l IH]; intros f Hf; simpl; [done|].
  rewrite app_nil, andb_true_iff, Hf. rewrite IH; [done|].
  intros i y. apply Hf.
Qed.

Lemma parse_array_nil (element : ZodType) (k : nat) (P : JsValue -> bool)
    (path : list PathKey) (v : JsValue) :
  (forall p x, parse element p x = [] <-> P x = true) ->
  parse (ZodArray element (Some k)) path v = [] <->
  match v with
  | JsArray items => bool_decide (length items = k) && forallb P items = true
  | _ => False
  end.
Proof.
  intros Hel. destruct v; try done.
  cbn -[lengthIssues]. rewrite app_nil, lengthIssues_nil, andb_true_iff, bool_decide_eq_true.
  rewrite (concat_imap_nil _ P); [done|]. intros i x. apply Hel.
Qed.

Lemma parse_enum_nil (values : list string) (path : list PathKey) (v : JsValue) :
  parse (ZodEnum values) path v = [] <->
  match v with
  | JsString label => bool_decide (label ∈ values) = true
  | _ => False
  end.
Proof.
  destruct v; simpl; try done. by case_bool_decide.
Qed.

Lemma parse_question_object (path : list PathKey)
    (fields : gmap string JsValue) :
  parse questionSchema path (JsObject fields) =
  parse ZodString (path ++ [Key "question"]) (property fields "question") ++
  parse (ZodArray ZodString (Some 4)) (path ++ [Key "options"])
    (property fields "options") ++
  parse (ZodEnum ["A"; "B"; "C"; "D"]) (path ++ [Key "answer"])
    (property fields "answer") ++
  parse ZodString (path ++ [Key "explanation"])
    (property fields "explanation") ++ [].
Proof. reflexivity. Qed.

Lemma parse_question_nil (path : list PathKey) (v : JsValue) :
  parse questionSchema path v = [] <-> isQuestionValue v = true.
Proof.
  destruct v; try done.
  rewrite parse_question_object. unfold isQuestionValue.
  rewrite !app_nil, !andb_true_iff.
  rewrite parse_string_nil, parse_string_nil.
  rewrite (parse_array_nil ZodString 4 isText) by apply parse_string_nil.
  rewrite parse_enum_nil.
  destruct (property fields "options"), (property fields "answer");
    simpl; intuition (done || auto).
Qed.

Lemma parse_questions_nil (path : list PathKey) (v : JsValue) :
  parse questionsSchema path v = [] <-> isBatchOfFour v = true.
Proof.
  unfold questionsSchema.
  rewrite (parse_array_nil questionSchema 4 isQuestionValue)
    by apply parse_question_nil.
  by destruct v.
Qed.

Lemma safeParse_success_iff (v : JsValue) :
  safeParse questionsSchema v = ParseSuccess <-> isBatchOfFour v = true.
Proof.
  rewrite <- (parse_questions_nil [] v). unfold safeParse.
  by destruct (parse questionsSchema [] v).
Qed.

Lemma onFinish_finished_iff (message : ZodIssue -> string) (object : JsValue) :
  onFinish message object = Finished <-> isBatchOfFour object = true.
Proof.
  rewrite <- safeParse_success_iff. unfold onFinish.
  by destruct (safeParse questionsSchema object).
Qed.

(** C3: when the assembled output is not an array of exactly 4 Questions,
    each with exactly 4 string options and an answer among A, B, C, D, the
    schema reports at least one issue and [onFinish] throws the error that
    carries their messages: the callback never completes on a partial or
    malformed batch. *)
Theorem C3_malformed_batch_is_rejected
    (message : ZodIssue -> string) (object : JsValue) :
  isBatchOfFour object = false ->
  exists issues,
    issues <> [] /\
    safeParse questionsSchema object = ParseError issues /\
    onFinish message object =
      Failed (String.concat newline (map message issues)) /\
    onFinish message object <> Finished.
Proof.
  intros Hbad.
  assert (Hnot : safeParse questionsSchema object <> ParseSuccess).
  { rewrite safeParse_success_iff. by rewrite Hbad. }
  unfold onFinish. unfold safeParse in *.
  destruct (parse questionsSchema [] object) as [|issue issues]; [done|].
  exists (issue :: issues). by repeat split.
Qed.

Lemma C3_malformed_batch_is_rejected_witness :
  isBatchOfFour malformedBatch = false /\
  exists issues,
    safeParse questionsSchema malformedBatch = ParseError issues /\
    onFinish (fun _ => "invalid") malformedBatch =
      Failed (String.concat newline (map (fun _ => "invalid") issues)).
Proof.
  split; [by vm_compute|].
  destruct (C3_malformed_batch_is_rejected (fun _ => "invalid") malformedBatch)
    as (issues & _ & Hparse & Hthrow & _); [by vm_compute|].
  exists issues. split; [exact Hparse | exact Hthrow].
Defined.

(** ** The session *)

(** ** Arrays *)

Lemma array_assign_at_end {A} (arr : list (option A)) (v : A) :
  array_assign arr (length arr) v = arr ++ [Some v].
Proof.
  unfold array_assign. case_decide; [lia|].
  by rewrite Nat.sub_diag.
Qed.

Lemma array_get_app_l {A} (arr tail : list (option A)) (i : nat) :
  i < length arr -> array_get (arr ++ tail) i = array_get arr i.
Proof. intros Hi. unfold array_get. by rewrite lookup_app_l. Qed.

Lemma array_get_at_end {A} (arr : list (option A)) (v : A) :
  array_get (arr ++ [Some v]) (length arr) = Some v.
Proof. unfold array_get. by rewrite list_lookup_middle. Qed.

Lemma omap_id_length {A} (arr : list (option A)) :
  Forall is_Some arr -> length (omap id arr) = length arr.
Proof.
  induction 1 as [|x arr [v ->] _ IH]; [done|].
  cbn. by rewrite IH.
Qed.

(** ** The count of correct answers *)

Lemma correctIn_nil (qs : list Question) : correctIn qs [] = [].
Proof. reflexivity. Qed.

Lemma correctIn_length_le (qs : list Question) (ans : list (option string)) :
  length (correctIn qs ans) <= length ans.
Proof.
  unfold correctIn.
  etransitivity; [apply List.filter_length_le|]. by rewrite length_seq.
Qed.

(** Recording one more answer at the end adds its index when it is right. *)
Lemma correctIn_snoc (qs : list Question) (ans : list (option string))
    (label : string) :
  correctIn qs (ans ++ [Some label]) =
  correctIn qs ans ++
  (if correctAt qs (ans ++ [Some label]) (length ans)
   then [length ans] else []).
Proof.
  unfold correctIn. rewrite length_app, seq_app, List.filter_app. simpl.
  f_equal. apply List.filter_ext_in. intros i Hi.
  apply in_seq in Hi. unfold correctAt.
  rewrite array_get_app_l by lia. done.
Qed.

(** Questions appended behind the answered ones do not change the count. *)
Lemma correctIn_app_questions (qs more : list Question)
    (ans : list (option string)) :
  length ans <= length qs -> correctIn (qs ++ more) ans = correctIn qs ans.
Proof.
  intros Hle. unfold correctIn. apply List.filter_ext_in. intros i Hi.
  apply in_seq in Hi. unfold correctAt.
  rewrite lookup_app_l by lia. done.
Qed.

Lemma Inv_mount (initialQuestions : list Question) :
  Inv (mount initialQuestions).
Proof. split; simpl; auto with lia. Qed.

(** The answer a click records, when the question is on the screen and not
    answered yet. *)
Lemma handleSelectAnswer_fresh (label : string) (s : QuizState) (q : Question) :
  hasAnswered s = false ->
  questions s !! currentQuestionIndex s = Some q ->
  length (answers s) = currentQuestionIndex s ->
  exists s',
    handleSelectAnswer label s = Returned s' /\
    questions s' = questions s /\
    currentQuestionIndex s' = currentQuestionIndex s /\
    answers s' = answers s ++ [Some label] /\
    score s' = score s + (if String.eqb label (answer q) then 1 else 0) /\
    hasAnswered s' = true /\
    isComplete s' = isComplete s /\
    isLoadingMore s' = isLoadingMore s.
Proof.
  intros Hfresh Hq Hlen. unfold handleSelectAnswer.
  rewrite Hfresh, Hq. simpl. rewrite <- Hlen, array_assign_at_end.
  destruct (String.eqb label (answer q)); eexists; (split; [reflexivity|]);
    simpl; repeat split; lia.
Qed.

Lemma render_question (s : QuizState) (v : View) :
  render s = Some v -> isComplete s = false ->
  exists q, questions s !! currentQuestionIndex s = Some q /\
    v = QuestionScreen (progress s) q
          (take (length (options q)) answerLabels)
          (if hasAnswered s then Some (feedbackMessage s) else None)
          (hasAnswered s && negb (includes (feedbackMessage s) "Correct")
           && negb (showExplanation s))
          (hasAnswered s && showExplanation s) (hasAnswered s).
Proof.
  unfold render. intros Hr Hc. rewrite Hc in Hr. simpl in Hr.
  destruct (questions s !! currentQuestionIndex s) as [q|]; [|done].
  exists q. split; congruence.
Qed.

Lemma render_results (s : QuizState) (v : View) :
  render s = Some v -> isComplete s = true ->
  v = ResultsScreen (score s) (length (answers s))
        (take (length (answers s)) (questions s)) (answers s).
Proof. unfold render. intros Hr Hc. rewrite Hc in Hr. simpl in Hr. congruence. Qed.

Lemma flight_settle (n : nat) (b : bool) :
  S n = (if b then 1 else 0) -> b = true /\ n = 0.
Proof. destruct b; split; congruence || lia. Qed.

(** A request settles: there was exactly one, and the flag was up. *)
Ltac settle_request Hflight :=
  let Hl := fresh "Hloading" in
  destruct (outstanding _) as [|?n] eqn:?; [done|]; intros [= <-];
  apply flight_settle in Hflight as [Hl ->].

Ltac appended_questions :=
  split; simpl; auto;
  [ rewrite length_app; lia
  | unfold correctIndices in *; simpl; by rewrite correctIn_app_questions ].

Lemma Inv_dispatch (initialQuestions : list Question) (e : Event)
    (σ σ' : Session) :
  Inv σ -> dispatch initialQuestions e σ = Some σ' -> Inv σ'.
Proof.
  intros [Hpos Hdense Hknown Hscore Hflight]. unfold dispatch.
  destruct (render (ui σ)) as [v|] eqn:Hr; [|done].
  destruct (isComplete (ui σ)) eqn:Hc.
  - (* the results screen *)
    apply render_results in Hr; [|done]. subst v.
    destruct e; simpl.
    all: unfold loadMore_begin, shouldLoadMore;
      rewrite ?Hc, ?andb_false_r; simpl; try done.
    + intros [= <-]. split; simpl; auto with lia.
    + settle_request Hflight. appended_questions.
    + settle_request Hflight. split; simpl; auto.
    + intros [= <-]. split; simpl; auto.
  - (* the question screen *)
    apply render_question in Hr as (q & Hq & ->); [|done].
    destruct e; simpl.
    all: unfold loadMore_begin.
    all: destruct (shouldLoadMore (ui σ)) eqn:Hload; try done.
    + case_bool_decide; [|done]. unfold clickOption.
      destruct (hasAnswered (ui σ)) eqn:Ha; simpl.
      { intros [= <-]. split; simpl; rewrite ?Ha; auto. }
      destruct (handleSelectAnswer_fresh label (ui σ) q Ha Hq)
        as (s' & -> & Hqs & Hi & Hans & Hsc & Ha' & Hc' & Hl'); [lia|].
      intros [= <-]. split; simpl.
      * rewrite Hans, Hi, Ha', length_app. simpl. lia.
      * rewrite Hans. apply Forall_app. split; [done|]. by repeat constructor.
      * rewrite Hans, Hqs, length_app. simpl.
        apply lookup_lt_Some in Hq. lia.
      * unfold correctIndices in *.
        rewrite Hans, Hqs, correctIn_snoc, length_app, Hsc, Hscore.
        f_equal. unfold correctAt. rewrite array_get_at_end.
        replace (length (answers (ui σ)))
          with (currentQuestionIndex (ui σ)) by lia.
        rewrite Hq. by destruct (String.eqb label (answer q)).
      * by rewrite Hl'.
    + destruct (_ && _ && _); [|done]. intros [= <-]. split; simpl; auto.
    + destruct (hasAnswered (ui σ)) eqn:Ha; [|done]. intros [= <-].
      split; simpl; auto with lia.
    + intros [= <-]. split; simpl; auto.
    + intros [= <-]. unfold shouldLoadMore in Hload.
      destruct (isLoadingMore (ui σ)); [by rewrite andb_false_r in Hload|].
      split; simpl; auto with lia.
    + settle_request Hflight. appended_questions.
    + settle_request Hflight. appended_questions.
    + settle_request Hflight. split; simpl; auto.
    + settle_request Hflight. split; simpl; auto.
    + intros [= <-]. split; simpl; auto.
Qed.

Lemma reachable_Inv (initialQuestions : list Question) (σ : Session) :
  reachable initialQuestions σ -> Inv σ.
Proof.
  induction 1 as [|σ e σ' _ IH Hstep];
    [apply Inv_mount | exact (Inv_dispatch _ _ _ _ IH Hstep)].
Qed.

Lemma run_reachable (initialQuestions : list Question) (events : list Event)
    (σ σ' : Session) :
  reachable initialQuestions σ ->
  run initialQuestions events σ = Some σ' ->
  reachable initialQuestions σ'.
Proof.
  revert σ. induction events as [|e events IH]; intros σ Hσ; simpl.
  - by intros [= <-].
  - destruct (dispatch initialQuestions e σ) as [σ1|] eqn:He; [|done].
    apply IH. by eapply reachable_step.
Qed.

Lemma trace_reachable (initialQuestions : list Question)
    (events : list Event) (σ : Session) :
  run initialQuestions events (mount initialQuestions) = Some σ ->
  reachable initialQuestions σ.
Proof. apply run_reachable, reachable_mount. Qed.

Lemma score_le_recorded (σ : Session) :
  Inv σ -> score (ui σ) <= length (recordedAnswers (ui σ)).
Proof.
  intros [_ Hdense _ Hscore _]. unfold recordedAnswers, correctIndices in *.
  rewrite Hscore, omap_id_length by done. apply correctIn_length_le.
Qed.

Lemma loadingSession_reachable : reachable sampleBatch loadingSession.
Proof. by apply (trace_reachable sampleBatch eventsUntilThird). Qed.

Lemma grownSession_reachable : reachable sampleBatch grownSession.
Proof.
  by apply (trace_reachable sampleBatch
    (eventsUntilThird ++ [ClickOption "C"; RequestResolved sampleBatch])).
Qed.

Lemma pastTheEndSession_reachable : reachable sampleBatch pastTheEndSession.
Proof.
  by apply (trace_reachable sampleBatch
    (eventsUntilThird ++
     [ClickOption "C"; ClickNext; ClickOption "B"; ClickNext])).
Qed.

(** ** The claims about the session *)

(** C1: at every reachable session state the score is the number of indices
    with a recorded answer whose label equals [questions[i].answer], and it
    does not exceed the number of answers given; every event, among them
    selecting an answer, advancing, asking for the results and the append of
    a fetched batch, leads to a state where this holds again. *)
Theorem C1_score_counts_correct_answers
    (initialQuestions : list Question) (σ : Session) :
  reachable initialQuestions σ ->
  score (ui σ) = length (correctIndices (ui σ)) /\
  score (ui σ) <= length (recordedAnswers (ui σ)) /\
  forall e σ',
    dispatch initialQuestions e σ = Some σ' ->
    score (ui σ') = length (correctIndices (ui σ')) /\
    score (ui σ') <= length (recordedAnswers (ui σ')).
Proof.
  intros Hσ. pose proof (reachable_Inv _ _ Hσ) as HI.
  split; [apply HI|]. split; [by apply score_le_recorded|].
  intros e σ' Hstep. pose proof (Inv_dispatch _ _ _ _ HI Hstep) as HI'.
  split; [apply HI' | by apply score_le_recorded].
Qed.

Lemma C1_score_counts_correct_answers_witness :
  reachable sampleBatch grownSession /\
  score (ui grownSession) = 2 /\
  correctIndices (ui grownSession) = [0; 2] /\
  length (recordedAnswers (ui grownSession)) = 3.
Proof.
  split; [exact grownSession_reachable|].
  pose proof (C1_score_counts_correct_answers sampleBatch grownSession
                grownSession_reachable) as [Hscore _].
  split; [rewrite Hscore|]; by vm_compute.
Defined.

(** C2: a second [handleSelectAnswer] on the same question changes nothing,
    whatever the two labels: the state after both calls is the state after
    the first.  In a reachable state the current question has an answer
    recorded exactly when [hasAnswered] is set, so selecting is a no-op
    whenever the current question already has an answer. *)
Theorem C2_second_selection_is_a_noop :
  (forall (s : QuizState) (L1 L2 : string),
     handleSelectAnswer L2 (stateOf (handleSelectAnswer L1 s)) =
     Returned (stateOf (handleSelectAnswer L1 s))) /\
  (forall (initialQuestions : list Question) (σ : Session) (L : string),
     reachable initialQuestions σ ->
     is_Some (array_get (answers (ui σ)) (currentQuestionIndex (ui σ))) ->
     handleSelectAnswer L (ui σ) = Returned (ui σ)).
Proof.
  split.
  - intros s L1 L2. unfold handleSelectAnswer at 2 3.
    destruct (hasAnswered s) eqn:Ha; simpl.
    + unfold handleSelectAnswer. by rewrite Ha.
    + destruct (questions s !! currentQuestionIndex s) as [q|]; [|done].
      by destruct (String.eqb L1 (answer q)).
  - intros iq σ L Hσ Hrec. apply reachable_Inv in Hσ as [Hpos _ _ _ _].
    unfold handleSelectAnswer.
    destruct (hasAnswered (ui σ)); [done|].
    unfold array_get in Hrec. rewrite lookup_ge_None_2 in Hrec by lia.
    by destruct Hrec.
Qed.

Lemma C2_second_selection_is_a_noop_witness :
  let s1 := stateOf (handleSelectAnswer "C" (ui loadingSession)) in
  array_get (answers s1) (currentQuestionIndex s1) = Some "C" /\
  handleSelectAnswer "D" s1 = Returned s1 /\
  handleSelectAnswer "B" (ui grownSession) = Returned (ui grownSession).
Proof.
  destruct C2_second_selection_is_a_noop as [Htwice Hrecorded].
  split; [reflexivity|]. split.
  - exact (Htwice (ui loadingSession) "C" "D").
  - apply (Hrecorded sampleBatch grownSession "B" grownSession_reachable).
    vm_compute. eexists. reflexivity.
Defined.

(** C4: the index can leave the question list.  [handleNextQuestion] adds one
    without looking at the length of the list: with the four questions of the
    first batch answered while the preloading request is still outstanding,
    the next button moves the index to 4, the length of the list; the quiz
    is not complete, there is no question at that index, and the render
    throws. *)
Theorem C4_index_runs_past_the_end :
  reachable sampleBatch pastTheEndSession /\
  isComplete (ui pastTheEndSession) = false /\
  length (questions (ui pastTheEndSession)) = 4 /\
  currentQuestionIndex (ui pastTheEndSession) = 4 /\
  questions (ui pastTheEndSession)
    !! currentQuestionIndex (ui pastTheEndSession) = None /\
  render (ui pastTheEndSession) = None.
Proof. split; [exact pastTheEndSession_reachable | by vm_compute]. Qed.

(** The component without preloading guards the same step: its next button
    never moves the index out of the list. *)
Lemma FixedQuiz_next_stays_inside (s : QuizState) :
  currentQuestionIndex s < length (questions s) ->
  currentQuestionIndex (FixedQuiz.handleNextQuestion s)
  < length (questions (FixedQuiz.handleNextQuestion s)).
Proof.
  intros Hin. unfold FixedQuiz.handleNextQuestion.
  destruct (Z.ltb_spec (Z.of_nat (currentQuestionIndex s))
              (Z.of_nat (length (questions s)) - 1)); simpl; lia.
Qed.

(** What holds on the way there: the index never exceeds the length of the
    list, and it is inside the list whenever the current question has been
    answered. *)
Lemma index_at_most_one_past_the_end
    (initialQuestions : list Question) (σ : Session) :
  reachable initialQuestions σ ->
  currentQuestionIndex (ui σ) <= length (questions (ui σ)) /\
  (hasAnswered (ui σ) = true ->
   currentQuestionIndex (ui σ) < length (questions (ui σ))).
Proof.
  intros Hσ. apply reachable_Inv in Hσ as [Hpos _ Hknown _ _].
  destruct (hasAnswered (ui σ)); split; intros; lia || done.
Qed.

(** C5: [handleShowResults] marks the session complete, answered or not; the
    results screen then gets as many questions to review as answers were
    recorded, and the total handed to the score display is that number
    too. *)
Theorem C5_results_cover_recorded_answers
    (initialQuestions : list Question) (σ : Session) :
  reachable initialQuestions σ ->
  let s' := handleShowResults (ui σ) in
  isComplete s' = true /\
  exists reviewQuestions,
    render s' =
      Some (ResultsScreen (score (ui σ)) (length (recordedAnswers (ui σ)))
              reviewQuestions (answers (ui σ))) /\
    reviewQuestions = take (length (recordedAnswers (ui σ))) (questions (ui σ)) /\
    length (reviewRows reviewQuestions (answers (ui σ))) =
      length (recordedAnswers (ui σ)).
Proof.
  intros Hσ s'. apply reachable_Inv in Hσ as [_ Hdense Hknown _ _].
  split; [reflexivity|].
  unfold recordedAnswers. rewrite omap_id_length by done.
  eexists. split; [reflexivity|]. split; [reflexivity|].
  unfold reviewRows. rewrite length_imap, length_take. simpl. lia.
Qed.

Lemma C5_results_cover_recorded_answers_witness :
  reachable sampleBatch grownSession /\
  length (questions (ui grownSession)) = 8 /\
  length (recordedAnswers (ui grownSession)) = 3 /\
  exists reviewQuestions,
    render (handleShowResults (ui grownSession)) =
      Some (ResultsScreen 2 3 reviewQuestions (answers (ui grownSession))) /\
    length (reviewRows reviewQuestions (answers (ui grownSession))) = 3.
Proof.
  split; [exact grownSession_reachable|].
  split; [reflexivity|]. split; [reflexivity|].
  destruct (C5_results_cover_recorded_answers sampleBatch grownSession
              grownSession_reachable) as (_ & rq & Hrender & _ & Hrows).
  exists rq. split; [exact Hrender | exact Hrows].
Defined.

(** The results button is on every question screen, whether or not the
    current question has been answered. *)
Lemma showResults_always_offered
    (initialQuestions : list Question) (σ : Session) (v : View) :
  isComplete (ui σ) = false -> render (ui σ) = Some v ->
  shouldLoadMore (ui σ) = false ->
  dispatch initialQuestions ClickShowResults σ =
  Some (mkSession (handleShowResults (ui σ)) (outstanding σ) (console σ)).
Proof.
  intros Hc Hr Hload. unfold dispatch. rewrite Hr.
  apply render_question in Hr as (q & _ & ->); [|done].
  by rewrite Hload.
Qed.

(** ** The preloading effect *)

Lemma shouldLoadMore_spec (s : QuizState) :
  shouldLoadMore s = true <->
  length (questions s) <= currentQuestionIndex s + 2 /\
  isLoadingMore s = false /\ isComplete s = false.
Proof.
  unfold shouldLoadMore. rewrite !andb_true_iff, !negb_true_iff, Z.leb_le.
  intuition lia.
Qed.

Lemma loadMore_begin_spec (s : QuizState) :
  is_Some (loadMore_begin s) <-> shouldLoadMore s = true.
Proof.
  unfold loadMore_begin.
  destruct (shouldLoadMore s); split; try done; by intros [? [=]].
Qed.

Lemma dispatch_effect_spec (initialQuestions : list Question) (σ : Session) :
  dispatch initialQuestions LoadMoreEffect σ =
  match render (ui σ), loadMore_begin (ui σ) with
  | Some _, Some s' => Some (mkSession s' (S (outstanding σ)) (console σ))
  | _, _ => None
  end.
Proof. unfold dispatch. by destruct (render (ui σ)). Qed.

(** C6: the effect issues a request exactly when the index is within 2 of the
    end of the question list, the loading flag is down and the session is not
    complete.  The request that is issued is then the only one outstanding.
    While the flag is up the effect issues nothing, and at no time is more
    than one request outstanding. *)
Theorem C6_one_request_at_a_time
    (initialQuestions : list Question) (σ : Session) :
  reachable initialQuestions σ ->
  (is_Some (loadMore_begin (ui σ)) <->
   length (questions (ui σ)) <= currentQuestionIndex (ui σ) + 2 /\
   isLoadingMore (ui σ) = false /\ isComplete (ui σ) = false) /\
  (is_Some (dispatch initialQuestions LoadMoreEffect σ) <->
   is_Some (render (ui σ)) /\ is_Some (loadMore_begin (ui σ))) /\
  (forall σ',
     dispatch initialQuestions LoadMoreEffect σ = Some σ' ->
     outstanding σ = 0 /\ outstanding σ' = 1 /\
     isLoadingMore (ui σ') = true) /\
  (isLoadingMore (ui σ) = true ->
   loadMore_begin (ui σ) = None /\
   dispatch initialQuestions LoadMoreEffect σ = None) /\
  outstanding σ = (if isLoadingMore (ui σ) then 1 else 0) /\
  outstanding σ <= 1.
Proof.
  intros Hσ. apply reachable_Inv in Hσ as [_ _ _ _ Hflight].
  split; [by rewrite loadMore_begin_spec, shouldLoadMore_spec|].
  rewrite dispatch_effect_spec.
  assert (Hissue : forall s', loadMore_begin (ui σ) = Some s' ->
            outstanding σ = 0 /\ isLoadingMore s' = true).
  { unfold loadMore_begin. intros s'.
    destruct (shouldLoadMore (ui σ)) eqn:Hload; [|done]. intros [= <-].
    apply shouldLoadMore_spec in Hload as (_ & Hl & _).
    by rewrite Hflight, Hl. }
  assert (Hup : isLoadingMore (ui σ) = true -> loadMore_begin (ui σ) = None).
  { intros Hl. unfold loadMore_begin, shouldLoadMore.
    by rewrite Hl, andb_false_r. }
  split; [|split; [|split; [|split]]].
  - split.
    + destruct (render (ui σ)), (loadMore_begin (ui σ)); by inversion 1.
    + intros [[v ->] [s' ->]]. by eexists.
  - intros σ'. destruct (render (ui σ)); [|done].
    destruct (loadMore_begin (ui σ)) as [s'|] eqn:Hb; [|done].
    intros [= <-]. destruct (Hissue s' eq_refl) as [Hzero Hl].
    simpl. by rewrite Hzero.
  - intros Hl. rewrite (Hup Hl). by destruct (render (ui σ)).
  - done.
  - rewrite Hflight. destruct (isLoadingMore (ui σ)); lia.
Qed.

Lemma C6_one_request_at_a_time_witness :
  reachable sampleBatch loadingSession /\
  isLoadingMore (ui loadingSession) = true /\
  dispatch sampleBatch LoadMoreEffect loadingSession = None /\
  outstanding loadingSession = 1.
Proof.
  split; [exact loadingSession_reachable|]. split; [reflexivity|].
  destruct (C6_one_request_at_a_time sampleBatch loadingSession
              loadingSession_reachable)
    as (_ & _ & _ & Hsuppressed & Hone & _).
  split; [by apply Hsuppressed | exact Hone].
Defined.

(** While the guard of the effect holds, the effect is what happens next:
    no click and no timer is handled before it. *)
Lemma effect_runs_first (initialQuestions : list Question) (σ : Session)
    (e : Event) :
  reachable initialQuestions σ ->
  shouldLoadMore (ui σ) = true ->
  is_Some (dispatch initialQuestions e σ) -> e = LoadMoreEffect.
Proof.
  intros Hσ Hload. apply reachable_Inv in Hσ as [_ _ _ _ Hflight].
  apply shouldLoadMore_spec in Hload as Hcond.
  destruct Hcond as (_ & Hl & _). rewrite Hl in Hflight.
  unfold dispatch. destruct (render (ui σ)); [|by intros [? [=]]].
  rewrite Hload, Hflight. destruct e; try done; by intros [? [=]].
Qed.

(** ** A request that fails *)

(** C7, as stated, fails where it says that no retry follows.  The request of
    [loadingSession] is rejected: the flag goes down while the index (2) is
    still within 2 of the end (4) and the session is not complete, so the
    guard of the effect holds again, the effect issues a new request, and no
    click is handled before it has done so. *)
Lemma C7_failed_request_is_retried :
  reachable sampleBatch loadingSession /\
  dispatch sampleBatch RequestRejected loadingSession = Some failedSession /\
  outstanding failedSession = 0 /\
  shouldLoadMore (ui failedSession) = true /\
  dispatch sampleBatch (ClickOption "C") failedSession = None /\
  dispatch sampleBatch LoadMoreEffect failedSession =
    Some (mkSession (ui loadingSession) 1 [msgLoadFailed]).
Proof. split; [exact loadingSession_reachable | by vm_compute]. Qed.

Lemma setIsLoadingMore_again (s : QuizState) :
  isLoadingMore s = true -> setIsLoadingMore true (setIsLoadingMore false s) = s.
Proof. destruct s; simpl. by intros ->. Qed.

(** C7, amended: when the request fails the error is caught and logged, and
    questions, answers, score, index and completion flag are as before; the
    only change is that the loading flag goes down, so the screen is the
    same and play goes on.  Lowering the flag makes the effect run again:
    while the index is still within 2 of the end and the session is not
    complete, a new request is issued at once. *)
Theorem C7_failure_keeps_state_and_refetches
    (initialQuestions : list Question) (σ σ' : Session) :
  reachable initialQuestions σ ->
  dispatch initialQuestions RequestRejected σ = Some σ' ->
  questions (ui σ') = questions (ui σ) /\
  answers (ui σ') = answers (ui σ) /\
  score (ui σ') = score (ui σ) /\
  currentQuestionIndex (ui σ') = currentQuestionIndex (ui σ) /\
  isComplete (ui σ') = isComplete (ui σ) /\
  ui σ' = setIsLoadingMore false (ui σ) /\
  console σ' = console σ ++ [msgLoadFailed] /\
  outstanding σ' = 0 /\
  render (ui σ') = render (ui σ) /\
  (length (questions (ui σ)) <= currentQuestionIndex (ui σ) + 2 ->
   isComplete (ui σ) = false ->
   dispatch initialQuestions LoadMoreEffect σ' =
   Some (mkSession (ui σ) 1 (console σ'))).
Proof.
  intros Hσ. apply reachable_Inv in Hσ as [_ _ _ _ Hflight].
  unfold dispatch at 1. destruct (render (ui σ)) as [v|] eqn:Hr; [|done].
  simpl. settle_request Hflight. simpl.
  repeat (split; [reflexivity|]). split.
  - unfold render. simpl. done.
  - intros Hnear Hc. rewrite dispatch_effect_spec. simpl.
    replace (render (setIsLoadingMore false (ui σ))) with (Some v)
      by (rewrite <- Hr; reflexivity).
    unfold loadMore_begin.
    assert (shouldLoadMore (setIsLoadingMore false (ui σ)) = true) as ->.
    { apply shouldLoadMore_spec. simpl. done. }
    by rewrite setIsLoadingMore_again.
Qed.

Lemma C7_failure_keeps_state_and_refetches_witness :
  reachable sampleBatch loadingSession /\
  dispatch sampleBatch RequestRejected loadingSession = Some failedSession /\
  questions (ui failedSession) = questions (ui loadingSession) /\
  answers (ui failedSession) = answers (ui loadingSession) /\
  console failedSession = [msgLoadFailed] /\
  render (ui failedSession) = render (ui loadingSession).
Proof.
  split; [exact loadingSession_reachable|]. split; [reflexivity|].
  destruct (C7_failure_keeps_state_and_refetches sampleBatch loadingSession
              failedSession loadingSession_reachable eq_refl)
    as (Hq & Ha & _ & _ & _ & _ & Hlog & _ & Hscreen & _).
  split; [exact Hq|]. split; [exact Ha|]. split; [exact Hlog | exact Hscreen].
Defined.

(** ** Reset, append and advance on every state *)

(** C8: [handleReset] puts the index and the score back to 0, empties the
    answers, lowers the completion flag and puts the initial batch back as
    the question list, whatever had been appended. *)
Theorem C8_reset_restores_the_initial_batch
    (initialQuestions : list Question) (s : QuizState) :
  currentQuestionIndex (handleReset initialQuestions s) = 0 /\
  score (handleReset initialQuestions s) = 0 /\
  answers (handleReset initialQuestions s) = [] /\
  isComplete (handleReset initialQuestions s) = false /\
  questions (handleReset initialQuestions s) = initialQuestions.
Proof. repeat split. Qed.

(** C9: when the request succeeds the batch goes behind the known questions:
    the list is the old one followed by the new questions, an index of the
    old list holds the question it held, and answers, score, index and
    completion flag are untouched. *)
Theorem C9_fetched_batch_is_appended
    (newQuestions : list Question) (s : QuizState) :
  questions (loadMore_resolved newQuestions s) = questions s ++ newQuestions /\
  take (length (questions s)) (questions (loadMore_resolved newQuestions s)) =
    questions s /\
  (forall i : nat,
     questions (loadMore_resolved newQuestions s) !! i =
     if decide (i < length (questions s)) then questions s !! i
     else newQuestions !! (i - length (questions s))) /\
  answers (loadMore_resolved newQuestions s) = answers s /\
  score (loadMore_resolved newQuestions s) = score s /\
  currentQuestionIndex (loadMore_resolved newQuestions s) =
    currentQuestionIndex s /\
  isComplete (loadMore_resolved newQuestions s) = isComplete s.
Proof.
  split; [reflexivity|]. split; [|split; [|repeat split]]; simpl.
  - by rewrite take_app_length.
  - intros i. case_decide.
    + by rewrite lookup_app_l.
    + rewrite lookup_app_r by lia. done.
Qed.

(** C10: [handleNextQuestion] adds one to the index and clears the answered
    flag, the feedback message and the explanation; question list, answers,
    score and completion flag are untouched (and so are the loading flag and
    the progress value). *)
Theorem C10_advance_frame (s : QuizState) :
  currentQuestionIndex (handleNextQuestion s) = currentQuestionIndex s + 1 /\
  hasAnswered (handleNextQuestion s) = false /\
  feedbackMessage (handleNextQuestion s) = "" /\
  showExplanation (handleNextQuestion s) = false /\
  questions (handleNextQuestion s) = questions s /\
  answers (handleNextQuestion s) = answers s /\
  score (handleNextQuestion s) = score s /\
  isComplete (handleNextQuestion s) = isComplete s /\
  isLoadingMore (handleNextQuestion s) = isLoadingMore s /\
  progress (handleNextQuestion s) = progress s.
Proof. repeat split. Qed.
(** ** The events of the session, case by case *)

Lemma dispatch_step (initialQuestions : list Question) (e : Event)
    (σ σ' : Session) :
  dispatch initialQuestions e σ = Some σ' -> step initialQuestions σ e σ'.
Proof.
  unfold dispatch.
  destruct (render (ui σ)) as [v|] eqn:Hr; [|done].
  assert (Hv : is_Some (render (ui σ))) by (by eexists).
  destruct (isComplete (ui σ)) eqn:Hc.
  - apply render_results in Hr; [|done]. subst v.
    destruct e; simpl.
    all: unfold loadMore_begin, shouldLoadMore;
      rewrite ?Hc, ?andb_false_r; simpl; try done.
    + intros [= <-]. by constructor.
    + destruct (outstanding σ) as [|n] eqn:Ho; [done|]. intros [= <-].
      by econstructor.
    + destruct (outstanding σ) as [|n] eqn:Ho; [done|]. intros [= <-].
      by econstructor.
    + intros [= <-]. constructor; [done|].
      unfold shouldLoadMore. by rewrite Hc, andb_false_r.
  - apply render_question in Hr as (q & Hq & ->); [|done].
    destruct e; simpl.
    all: unfold loadMore_begin.
    all: destruct (shouldLoadMore (ui σ)) eqn:Hload; try done.
    + case_bool_decide; [|done]. unfold clickOption.
      destruct (hasAnswered (ui σ)) eqn:Ha; simpl.
      { intros [= <-]. by econstructor. }
      destruct (handleSelectAnswer label (ui σ)) as [s'|s' err] eqn:Hsel.
      * intros [= <-]. by econstructor.
      * unfold handleSelectAnswer in Hsel. rewrite Ha, Hq in Hsel.
        simpl in Hsel. by destruct (String.eqb label (answer q)).
    + destruct (hasAnswered (ui σ)) eqn:Ha; [|done]. simpl.
      destruct (includes _ _) eqn:Hi; [done|]. simpl.
      destruct (showExplanation (ui σ)) eqn:Hs; [done|]. simpl.
      intros [= <-]. by econstructor.
    + destruct (hasAnswered (ui σ)) eqn:Ha; [|done]. intros [= <-].
      by econstructor.
    + intros [= <-]. by econstructor.
    + intros [= <-]. by constructor.
    + destruct (outstanding σ) as [|n] eqn:Ho; [done|]. intros [= <-].
      by econstructor.
    + destruct (outstanding σ) as [|n] eqn:Ho; [done|]. intros [= <-].
      by econstructor.
    + destruct (outstanding σ) as [|n] eqn:Ho; [done|]. intros [= <-].
      by econstructor.
    + destruct (outstanding σ) as [|n] eqn:Ho; [done|]. intros [= <-].
      by econstructor.
    + intros [= <-]. by constructor.
Qed.



Lemma Facts_mount (initialQuestions : list Question) :
  Facts initialQuestions (mount initialQuestions).
Proof.
  split; simpl; try done; try (by apply Forall_nil).
  exists []. by rewrite app_nil_r.
Qed.

Lemma Facts_step (initialQuestions : list Question) (e : Event)
    (σ σ' : Session) :
  Inv σ -> Facts initialQuestions σ -> step initialQuestions σ e σ' ->
  Facts initialQuestions σ'.
Proof.
  intros [Hpos _ Hknown _ _] [Hcon Hlab Hfb Hpre Hprog Hcomp] Hstep.
  destruct Hstep as
    [σ label q s' Hc Hq Hload Hin Ha Hsel | σ label q Hc Hq Hload Hin Ha
    | σ q Hc Hq Hload Ha Hi Hs | σ q Hc Hq Hload Ha | σ q Hc Hq Hload
    | σ Hc | σ Hr Hload | σ new n Hr Ho | σ n Hr Ho | σ Hr Hload].
  - (* an answer *)
    rewrite Ha in Hpos.
    assert (Hassign :
      array_assign (answers (ui σ)) (currentQuestionIndex (ui σ)) label =
      answers (ui σ) ++ [Some label]).
    { replace (currentQuestionIndex (ui σ)) with (length (answers (ui σ)))
        by lia. apply array_assign_at_end. }
    unfold handleSelectAnswer in Hsel.
    rewrite Ha, Hq, Hassign in Hsel. simpl in Hsel.
    assert (Hget : array_get (answers (ui σ) ++ [Some label])
                     (currentQuestionIndex (ui σ)) = Some label).
    { replace (currentQuestionIndex (ui σ)) with (length (answers (ui σ)))
        by lia. apply array_get_at_end. }
    assert (Hlabel : label ∈ answerLabels).
    { by apply (subseteq_take (length (options q)) answerLabels). }
    destruct (String.eqb label (answer q)) eqn:Heq;
      injection Hsel as <-; split; simpl; try done.
    all: try (change (recordedAnswers _)
                with (omap id (answers (ui σ) ++ [Some label]));
              rewrite omap_app; apply Forall_app; split; [exact Hlab|];
              by apply Forall_singleton).
    all: intros _; exists q, label; by rewrite Heq.
  - (* a click on an answered question *)
    by split.
  - (* the explanation *)
    split; simpl; done.
  - (* the next question *)
    split; simpl; try done. intros; congruence.
  - (* the results *)
    split; simpl; try done. intros _. by eapply lookup_lt_Some.
  - (* reset *)
    split; simpl; try done; try (by apply Forall_nil).
    exists []. by rewrite app_nil_r.
  - (* a request is issued *)
    split; simpl; done.
  - (* the request resolved *)
    split; simpl; try done.
    + intros Ha. destruct (Hfb Ha) as (q & label & Hq & Hl & Hm).
      exists q, label. split; [|done].
      apply lookup_app_l_Some. exact Hq.
    + destruct Hpre as [more ->]. exists (more ++ new). by rewrite app_assoc.
    + intros Hc. rewrite length_app. specialize (Hcomp Hc). lia.
  - (* the request failed *)
    split; simpl; try done.
    apply Forall_app. split; [done|]. by repeat constructor.
  - (* the progress timer *)
    split; simpl; try done.
    destruct Hr as [v Hr]. unfold render in Hr.
    destruct (isComplete (ui σ)) eqn:Hc; simpl in Hr; [by apply Hcomp|].
    destruct (questions (ui σ) !! currentQuestionIndex (ui σ)) as [q|] eqn:Hq;
      [|done].
    by eapply lookup_lt_Some.
Qed.

Lemma reachable_Facts (initialQuestions : list Question) (σ : Session) :
  reachable initialQuestions σ -> Facts initialQuestions σ.
Proof.
  induction 1 as [|σ e σ' Hσ IH Hstep]; [apply Facts_mount|].
  eapply Facts_step; [by eapply reachable_Inv | exact IH |].
  by apply dispatch_step.
Qed.

(** ** More about the session *)

(** X1: the render of a reachable session throws in one situation only: the
    quiz is not complete and the index is exactly the length of the question
    list, one step past the last question. *)
Theorem render_throws_exactly_one_past_the_end
    (initialQuestions : list Question) (σ : Session) :
  reachable initialQuestions σ ->
  render (ui σ) = None <->
  isComplete (ui σ) = false /\
  currentQuestionIndex (ui σ) = length (questions (ui σ)).
Proof.
  intros Hσ. apply reachable_Inv in Hσ as [Hpos _ Hknown _ _].
  unfold render. destruct (isComplete (ui σ)); simpl.
  - split; [done | by intros [? _]].
  - destruct (questions (ui σ) !! currentQuestionIndex (ui σ)) as [q|] eqn:Hq.
    + split; [done|]. intros [_ Hend]. apply lookup_lt_Some in Hq. lia.
    + split; [|done]. intros _. split; [done|].
      apply lookup_ge_None in Hq. destruct (hasAnswered (ui σ)); lia.
Qed.

Lemma render_throws_exactly_one_past_the_end_witness :
  reachable sampleBatch pastTheEndSession /\
  render (ui pastTheEndSession) = None /\
  currentQuestionIndex (ui pastTheEndSession) =
    length (questions (ui pastTheEndSession)).
Proof.
  split; [exact pastTheEndSession_reachable|]. split; [reflexivity|].
  by apply (render_throws_exactly_one_past_the_end sampleBatch
              pastTheEndSession pastTheEndSession_reachable).
Defined.

(** X2: no handler throws in a session.  A click on an option always runs
    [handleSelectAnswer] to its end and logs nothing, and the only lines on
    the console are those of failed requests. *)
Theorem handlers_never_throw
    (initialQuestions : list Question) (σ : Session) :
  reachable initialQuestions σ ->
  Forall (fun line => line = msgLoadFailed) (console σ) /\
  forall label σ',
    dispatch initialQuestions (ClickOption label) σ = Some σ' ->
    clickOption label (ui σ) = Returned (ui σ') /\
    console σ' = console σ.
Proof.
  intros Hσ. split; [by apply (reachable_Facts initialQuestions)|].
  intros label σ' Hstep. apply dispatch_step in Hstep.
  inversion Hstep as
    [? ? q s' Hc Hq Hload Hin Ha Hsel | ? ? q Hc Hq Hload Hin Ha
    | | | | | | | | ]; subst; unfold clickOption; rewrite Ha; simpl; done.
Qed.

Lemma handlers_never_throw_witness :
  reachable sampleBatch failedSession /\
  console failedSession = [msgLoadFailed] /\
  Forall (fun line => line = msgLoadFailed) (console failedSession).
Proof.
  assert (Hr : reachable sampleBatch failedSession).
  { by apply (trace_reachable sampleBatch
                (eventsUntilThird ++ [RequestRejected])). }
  split; [exact Hr|]. split; [reflexivity|].
  by apply (handlers_never_throw sampleBatch failedSession Hr).
Defined.







(** X6: the initial batch stays in front: the question list always is the
    [questions] prop followed by what was fetched since the last reset, so a
    question of the initial batch is found at its index throughout. *)
Theorem initial_batch_stays_in_front
    (initialQuestions : list Question) (σ : Session) :
  reachable initialQuestions σ ->
  (exists more, questions (ui σ) = initialQuestions ++ more) /\
  take (length initialQuestions) (questions (ui σ)) = initialQuestions /\
  length initialQuestions <= length (questions (ui σ)).
Proof.
  intros Hσ.
  destruct (fact_prefix _ _ (reachable_Facts _ _ Hσ)) as [more Hmore].
  split; [by exists more|]. rewrite Hmore. split.
  - by rewrite take_app_length.
  - rewrite length_app. lia.
Qed.

Lemma initial_batch_stays_in_front_witness :
  reachable sampleBatch grownSession /\
  length (questions (ui grownSession)) = 8 /\
  take 4 (questions (ui grownSession)) = sampleBatch.
Proof.
  split; [exact grownSession_reachable|]. split; [reflexivity|].
  by apply (initial_batch_stays_in_front sampleBatch grownSession
              grownSession_reachable).
Defined.

(** X7: the progress bar never shows a full bar: its value is the literal 0
    or [(index / total) * 100] for an index below the total. *)
Theorem progress_stays_below_full
    (initialQuestions : list Question) (σ : Session) :
  reachable initialQuestions σ ->
  match progress (ui σ) with
  | ProgressZero => True
  | ProgressPercent index total => index < total
  end.
Proof. intros Hσ. by apply (reachable_Facts initialQuestions). Qed.

Lemma progress_stays_below_full_witness :
  reachable sampleBatch tickedSession /\
  progress (ui tickedSession) = ProgressPercent 2 4 /\
  2 < 4.
Proof.
  assert (Hr : reachable sampleBatch tickedSession).
  { by apply (trace_reachable sampleBatch
                (eventsUntilThird ++ [ProgressTimer])). }
  split; [exact Hr|]. split; [reflexivity|].
  exact (progress_stays_below_full sampleBatch tickedSession Hr).
Defined.

(** ** The option buttons and the explanation card *)

Lemma indexOf_label (i : nat) (label : string) :
  answerLabels !! i = Some label ->
  indexOf answerLabels (Some label) = Z.of_nat i.
Proof.
  destruct i as [|[|[|[|i]]]]; simpl; intros [= <-]; reflexivity.
Qed.

Lemma indexOf_not_a_label (x : option string) :
  (forall label, x = Some label -> label ∉ answerLabels) ->
  indexOf answerLabels x = (-1)%Z.
Proof.
  intros Hx. destruct x as [label|]; [|done]. unfold indexOf.
  destruct (list_find _ _) as [[i l]|] eqn:Hf; [|done].
  apply list_find_Some in Hf as (Hi & -> & _).
  destruct (Hx label eq_refl). by eapply list_elem_of_lookup_2.
Qed.

(** X8: on a question with four options whose answer is one of the labels,
    the card has four buttons labelled A to D.  Once the answer is shown,
    exactly one button carries the check icon, and a cross appears on one
    button, the selected one, exactly when the selected label is a wrong one;
    no click selects any more.  Before that there is no icon at all. *)
Theorem QuestionCard_marks (q : Question) (selectedAnswer : option string)
    (showCorrectAnswer : bool) :
  length (options q) = 4 ->
  answer q ∈ answerLabels ->
  let card := QuestionCard q selectedAnswer showCorrectAnswer in
  buttonLabel <$> card = Some <$> answerLabels /\
  buttonText <$> card = options q /\
  Forall (fun b => clickSelects b = negb showCorrectAnswer) card /\
  length (List.filter checkIcon card) = (if showCorrectAnswer then 1 else 0) /\
  length (List.filter crossIcon card) =
    (if showCorrectAnswer then
       match selectedAnswer with
       | Some label =>
           if bool_decide (label ∈ answerLabels /\ label <> answer q)
           then 1 else 0
       | None => 0
       end
     else 0) /\
  Forall (fun b => crossIcon b = true -> buttonLabel b = selectedAnswer) card /\
  Forall (fun b => checkIcon b = true -> buttonLabel b = Some (answer q)) card.
Proof.
  intros Hlen Hans card. subst card. unfold QuestionCard.
  destruct (options q) as [|o1 [|o2 [|o3 [|o4 [|o5 os]]]]]; try done.
  clear Hlen. unfold answerLabels in *.
  rewrite !elem_of_cons, elem_of_nil in Hans.
  destruct showCorrectAnswer; [|by repeat split; repeat constructor].
  destruct selectedAnswer as [label|].
  - destruct (decide (label ∈ ["A"; "B"; "C"; "D"])) as [Hl|Hl].
    + (* a label is selected *)
      rewrite !elem_of_cons, elem_of_nil in Hl.
      destruct Hans as [Ha|[Ha|[Ha|[Ha|[]]]]],
               Hl as [->|[->|[->|[->|[]]]]]; rewrite Ha;
        repeat split; repeat constructor; simpl; congruence.
    + (* what is selected is no label: no button is selected *)
      rewrite (bool_decide_eq_false_2 (_ /\ _)) by tauto.
      assert (Hno : forall l, l ∈ ["A"; "B"; "C"; "D"] ->
                bool_decide (Some l = Some label) = false).
      { intros l Hin. apply bool_decide_eq_false_2. intros [= ->]. done. }
      simpl.
      rewrite (Hno "A"), (Hno "B"), (Hno "C"), (Hno "D")
        by repeat constructor.
      simpl.
      destruct Hans as [Ha|[Ha|[Ha|[Ha|[]]]]]; rewrite Ha;
        repeat split; repeat constructor; simpl; congruence.
  - (* nothing is selected *)
    destruct Hans as [Ha|[Ha|[Ha|[Ha|[]]]]]; rewrite Ha;
      repeat split; repeat constructor; simpl; congruence.
Qed.

Lemma QuestionCard_marks_witness :
  let card := QuestionCard (sampleQuestion "B") (Some "C") true in
  length (List.filter checkIcon card) = 1 /\
  length (List.filter crossIcon card) = 1 /\
  buttonStyle <$> card = [StyleHover; StyleCorrect; StyleIncorrect; StyleHover].
Proof.
  destruct (QuestionCard_marks (sampleQuestion "B") (Some "C") true)
    as (_ & _ & _ & Hcheck & Hcross & _).
  - reflexivity.
  - by repeat constructor.
  - split; [exact Hcheck|]. split; [exact Hcross | reflexivity].
Defined.

Lemma at_index_of_nat {A} (arr : list A) (i : nat) :
  at_index arr (Z.of_nat i) = arr !! i.
Proof.
  unfold at_index. destruct (Z.ltb_spec (Z.of_nat i) 0); [lia|].
  by rewrite Nat2Z.id.
Qed.

Lemma label_position (label : string) :
  label ∈ answerLabels ->
  exists i, i < 4 /\ answerLabels !! i = Some label /\
            indexOf answerLabels (Some label) = Z.of_nat i.
Proof.
  intros Hin. apply list_elem_of_lookup_1 in Hin as [i Hi].
  exists i. split; [|split; [done | by apply indexOf_label]].
  by apply lookup_lt_Some in Hi.
Qed.

(** X9: the explanation card names real options.  In a session, once the
    current question (four options) is answered, the line for the user's
    answer shows the recorded label and the text of the option whose button
    carries it.  The line for the right answer shows the option at the
    position of the question's answer among the labels, and nothing when the
    answer is not a label. *)
Theorem explanation_names_the_clicked_option
    (initialQuestions : list Question) (σ : Session) (q : Question) :
  reachable initialQuestions σ ->
  hasAnswered (ui σ) = true ->
  questions (ui σ) !! currentQuestionIndex (ui σ) = Some q ->
  length (options q) = 4 ->
  let card :=
    explanationCard q
      (array_get (answers (ui σ)) (currentQuestionIndex (ui σ))) in
  (exists i label text,
     answerLabels !! i = Some label /\
     options q !! i = Some text /\
     yourLabel card = Some label /\
     yourOption card = Some text) /\
  (forall j, answerLabels !! j = Some (answer q) ->
     correctOption card = options q !! j /\ is_Some (options q !! j)) /\
  (answer q ∉ answerLabels -> correctOption card = None).
Proof.
  intros Hσ Ha Hq Hlen card.
  pose proof (reachable_Facts _ _ Hσ) as HF.
  destruct (fact_feedback _ _ HF Ha) as (q' & label & Hq' & Hl & _).
  assert (Hin : label ∈ answerLabels).
  { pose proof (fact_labels _ _ HF) as Hall.
    rewrite Forall_forall in Hall. apply Hall.
    unfold recordedAnswers. apply list_elem_of_omap.
    exists (Some label). split; [|done].
    unfold array_get in Hl.
    destruct (answers (ui σ) !! currentQuestionIndex (ui σ)) as [a|] eqn:Hlk;
      [|done].
    simpl in Hl. subst a. by eapply list_elem_of_lookup_2. }
  split; [|split].
  - destruct (label_position label Hin) as (i & Hi & Hlab & Hidx).
    destruct (lookup_lt_is_Some_2 (options q) i) as [text Htext]; [lia|].
    exists i, label, text. subst card. unfold explanationCard.
    cbn [yourLabel yourOption]. by rewrite Hl, Hidx, at_index_of_nat.
  - intros j Hj. subst card. unfold explanationCard. cbn [correctOption].
    rewrite (indexOf_label j _ Hj), at_index_of_nat. split; [done|].
    apply lookup_lt_is_Some_2. apply lookup_lt_Some in Hj. simpl in Hj. lia.
  - intros Hout. subst card. unfold explanationCard. cbn [correctOption].
    rewrite indexOf_not_a_label; [done|]. by intros ? [= <-].
Qed.

Lemma explanation_names_the_clicked_option_witness :
  let card :=
    explanationCard (sampleQuestion "C")
      (array_get (answers (ui grownSession))
         (currentQuestionIndex (ui grownSession))) in
  reachable sampleBatch grownSession /\
  yourOption card = Some "third" /\
  correctOption card = Some "third".
Proof.
  split; [exact grownSession_reachable|]. split; [reflexivity|].
  destruct (explanation_names_the_clicked_option sampleBatch grownSession
              (sampleQuestion "C") grownSession_reachable
              eq_refl eq_refl eq_refl) as (_ & Hcorrect & _).
  destruct (Hcorrect 2 eq_refl) as [Hoption _]. exact Hoption.
Defined.

(** ** The quiz over a fixed list (components/quiz.tsx) *)

Lemma array_assign_inside {A} (arr : list (option A)) (i : nat) (v : A) :
  i < length arr -> array_assign arr i v = <[i := Some v]> arr.
Proof. intros Hi. unfold array_assign. by case_decide. Qed.

Lemma array_get_insert {A} (arr : list (option A)) (i j : nat) (v : A) :
  i < length arr ->
  array_get (<[i := Some v]> arr) j =
  if decide (i = j) then Some v else array_get arr j.
Proof.
  intros Hi. unfold array_get. case_decide as Hij.
  - subst j. by rewrite list_lookup_insert_eq.
  - by rewrite list_lookup_insert_ne.
Qed.

Lemma array_get_replicate {A} (n i : nat) :
  array_get (replicate n (@None A)) i = None.
Proof.
  unfold array_get. destruct (replicate n None !! i) as [a|] eqn:Hl; [|done].
  by apply lookup_replicate in Hl as [-> _].
Qed.

Lemma filter_none {A} (f : A -> bool) (l : list A) :
  (forall x, In x l -> f x = false) -> List.filter f l = [].
Proof.
  induction l as [|x l IH]; intros Hf; simpl; [done|].
  rewrite (Hf x) by (by left). apply IH. intros y Hy. apply Hf. by right.
Qed.

(** Two predicates that differ at one index, where the first is false. *)
Lemma count_update (f g : nat -> bool) (n k : nat) :
  k < n -> f k = false -> (forall i, i <> k -> g i = f i) ->
  length (List.filter g (seq 0 n)) =
  length (List.filter f (seq 0 n)) + (if g k then 1 else 0).
Proof.
  intros Hk Hfk Hg. induction n as [|n IH]; [lia|].
  rewrite seq_S, !List.filter_app, !length_app. simpl.
  destruct (decide (k = n)) as [->|Hne].
  - rewrite Hfk.
    rewrite (List.filter_ext_in g f (seq 0 n)).
    + destruct (g n); simpl; lia.
    + intros i Hi. apply in_seq in Hi. apply Hg. lia.
  - rewrite IH by lia. rewrite (Hg n) by lia. lia.
Qed.

Lemma correctIn_insert (qs : list Question) (ans : list (option string))
    (k : nat) (label : string) :
  k < length ans -> array_get ans k = None ->
  length (correctIn qs (<[k := Some label]> ans)) =
  length (correctIn qs ans) +
  (match qs !! k with
   | Some q => if String.eqb label (answer q) then 1 else 0
   | None => 0
   end).
Proof.
  intros Hk Hnone. unfold correctIn. rewrite length_insert.
  rewrite (count_update (correctAt qs ans) _ _ k Hk).
  - f_equal. unfold correctAt. rewrite array_get_insert by done.
    rewrite decide_True by done. destruct (qs !! k) as [q|]; [|done].
    by destruct (String.eqb label (answer q)).
  - unfold correctAt. by rewrite Hnone.
  - intros i Hi. unfold correctAt. rewrite array_get_insert by done.
    by rewrite decide_False by done.
Qed.

Lemma correctIn_replicate (qs : list Question) (n : nat) :
  correctIn qs (replicate n None) = [].
Proof.
  unfold correctIn. apply filter_none. intros i _. unfold correctAt.
  by rewrite array_get_replicate.
Qed.

Lemma PlainQuiz_render_question (questions : list Question)
    (s : PlainQuiz.State) (v : PlainQuiz.View) :
  PlainQuiz.render questions s = Some v -> PlainQuiz.isComplete s = false ->
  exists q, questions !! PlainQuiz.currentQuestionIndex s = Some q.
Proof.
  unfold PlainQuiz.render. intros Hr Hc. rewrite Hc in Hr. simpl in Hr.
  destruct (questions !! PlainQuiz.currentQuestionIndex s) as [q|]; [|done].
  by exists q.
Qed.

Lemma PlainQuiz_Inv_mount (questions : list Question) :
  PlainQuiz.Inv questions (PlainQuiz.initialState questions).
Proof.
  split; simpl.
  - by rewrite length_replicate.
  - destruct questions; [by right | left; simpl; lia].
  - intros i. rewrite array_get_replicate. split; [by intros [? [=]] | lia].
  - done.
  - by rewrite correctIn_replicate.
Qed.

Lemma PlainQuiz_Inv_dispatch (questions : list Question)
    (e : PlainQuiz.Event) (s s' : PlainQuiz.State) :
  PlainQuiz.Inv questions s -> PlainQuiz.dispatch questions e s = Some s' ->
  PlainQuiz.Inv questions s'.
Proof.
  intros [Hslots Hinside Hans Hcomp Hscore]. unfold PlainQuiz.dispatch.
  destruct (PlainQuiz.render questions s) as [v|] eqn:Hr; [|done].
  destruct (PlainQuiz.isComplete s) eqn:Hc.
  - (* the results screen *)
    unfold PlainQuiz.render in Hr. rewrite Hc in Hr. simpl in Hr.
    injection Hr as <-.
    destruct e; try done; intros [= <-].
    + split; simpl; try done.
      * by rewrite length_replicate.
      * destruct Hinside as [Hin|Hempty]; [left; lia | by right].
      * intros i. rewrite array_get_replicate.
        split; [by intros [? [=]] | lia].
      * by rewrite correctIn_replicate.
    + split; simpl; auto.
  - (* the question screen *)
    pose proof Hr as Hview.
    apply PlainQuiz_render_question in Hr as [q Hq]; [|done].
    pose proof (lookup_lt_Some _ _ _ Hq) as Hlt.
    unfold PlainQuiz.render in Hview. rewrite Hc, Hq in Hview.
    simpl in Hview. injection Hview as <-.
    destruct e; try done.
    + case_bool_decide; [|done].
      destruct (PlainQuiz.hasAnswered s) eqn:Ha; simpl.
      { intros [= <-]. split; rewrite ?Ha, ?Hc; done. }
      assert (Hnone : array_get (PlainQuiz.answers s)
                        (PlainQuiz.currentQuestionIndex s) = None).
      { destruct (array_get _ _) eqn:Hg; [|done].
        assert (Hs : is_Some (array_get (PlainQuiz.answers s)
                                (PlainQuiz.currentQuestionIndex s)))
          by (by eexists).
        apply Hans in Hs. lia. }
      unfold PlainQuiz.handleSelectAnswer. rewrite Ha, Hq. simpl.
      rewrite array_assign_inside by lia.
      destruct (String.eqb label (answer q)) eqn:Heq; intros [= <-];
        split; simpl; try done.
      all: try (rewrite length_insert; done).
      all: try (intros i; rewrite array_get_insert by lia; case_decide;
                [ subst i; split; [lia | by eexists]
                | rewrite Hans; lia ]).
      all: try (intros; congruence).
      all: rewrite correctIn_insert, Hq, Heq by (done || lia); lia.
    + destruct (PlainQuiz.hasAnswered s) eqn:Ha; [|done]. intros [= <-].
      unfold PlainQuiz.clickNext, PlainQuiz.handleNextQuestion.
      destruct (Z.ltb_spec (Z.of_nat (PlainQuiz.currentQuestionIndex s))
                  (Z.of_nat (length questions) - 1)).
      * split; simpl; try done.
        -- left. lia.
        -- intros i. rewrite Hans. lia.
        -- intros; congruence.
      * split; simpl; try done.
        -- by rewrite Ha.
        -- intros _. split; [lia | done].
    + intros [= <-]. split; simpl; auto. intros; congruence.
Qed.

Lemma PlainQuiz_reachable_Inv (questions : list Question)
    (s : PlainQuiz.State) :
  PlainQuiz.reachable questions s -> PlainQuiz.Inv questions s.
Proof.
  induction 1 as [|s e s' _ IH Hstep];
    [apply PlainQuiz_Inv_mount | exact (PlainQuiz_Inv_dispatch _ _ _ _ IH Hstep)].
Qed.

Lemma PlainQuiz_run_reachable (questions : list Question)
    (events : list PlainQuiz.Event) (s s' : PlainQuiz.State) :
  PlainQuiz.reachable questions s ->
  PlainQuiz.run questions events s = Some s' ->
  PlainQuiz.reachable questions s'.
Proof.
  revert s. induction events as [|e events IH]; intros s Hs; simpl.
  - by intros [= <-].
  - destruct (PlainQuiz.dispatch questions e s) as [s1|] eqn:He; [|done].
    apply IH. by eapply PlainQuiz.reachable_step.
Qed.

Lemma PlainQuiz_finishedState_reachable :
  PlainQuiz.reachable sampleBatch PlainQuiz.finishedState.
Proof.
  apply (PlainQuiz_run_reachable sampleBatch
    [PlainQuiz.ClickOption "A"; PlainQuiz.ClickNext;
     PlainQuiz.ClickOption "A"; PlainQuiz.ClickNext;
     PlainQuiz.ClickOption "C"; PlainQuiz.ClickNext;
     PlainQuiz.ClickOption "B"; PlainQuiz.ClickNext]
    (PlainQuiz.initialState sampleBatch)); [constructor | reflexivity].
Qed.

(** X10: the quiz over a fixed list never runs past its questions: whenever
    it was given at least one question the index is inside the list, and its
    render throws only when it was given none. *)
Theorem PlainQuiz_index_stays_inside
    (questions : list Question) (s : PlainQuiz.State) :
  PlainQuiz.reachable questions s ->
  (questions <> [] -> PlainQuiz.currentQuestionIndex s < length questions) /\
  (PlainQuiz.render questions s = None <-> questions = []).
Proof.
  intros Hs. apply PlainQuiz_reachable_Inv in Hs as [_ Hinside _ Hcomp _].
  split; [by destruct Hinside|].
  unfold PlainQuiz.render.
  destruct (PlainQuiz.isComplete s) eqn:Hc; simpl.
  - split; [done|]. intros ->. destruct (Hcomp eq_refl) as [Hlast _].
    simpl in Hlast. lia.
  - destruct (questions !! PlainQuiz.currentQuestionIndex s) as [q|] eqn:Hq.
    + split; [done|]. intros ->. by rewrite lookup_nil in Hq.
    + split; [|done]. intros _. apply lookup_ge_None in Hq.
      destruct Hinside; [lia | done].
Qed.

Lemma PlainQuiz_index_stays_inside_witness :
  PlainQuiz.reachable sampleBatch PlainQuiz.finishedState /\
  PlainQuiz.currentQuestionIndex PlainQuiz.finishedState < length sampleBatch.
Proof.
  split; [exact PlainQuiz_finishedState_reachable|].
  by apply (PlainQuiz_index_stays_inside sampleBatch PlainQuiz.finishedState
              PlainQuiz_finishedState_reachable).
Defined.





Lemma filter_below (f : nat -> bool) (n k : nat) :
  (forall i, f i = true -> i < k) ->
  length (List.filter f (seq 0 n)) <= k.
Proof.
  intros Hf. replace k with (length (seq 0 k)) at 1 by apply length_seq.
  apply NoDup_incl_length.
  - apply List.NoDup_filter, seq_NoDup.
  - intros i Hi. apply filter_In in Hi as [_ Hi]. apply in_seq.
    specialize (Hf i Hi). lia.
Qed.

(** X13: in the quiz over a fixed list the score is the number of questions
    whose recorded answer is the right one; it is at most the number of
    questions answered so far, hence at most the number of questions. *)
Theorem PlainQuiz_score_counts_correct_answers
    (questions : list Question) (s : PlainQuiz.State) :
  PlainQuiz.reachable questions s ->
  PlainQuiz.score s = length (correctIn questions (PlainQuiz.answers s)) /\
  PlainQuiz.score s <=
    PlainQuiz.currentQuestionIndex s
    + (if PlainQuiz.hasAnswered s then 1 else 0) /\
  PlainQuiz.score s <= length questions.
Proof.
  intros Hs.
  apply PlainQuiz_reachable_Inv in Hs as [Hslots _ Hans _ Hscore].
  split; [exact Hscore|]. rewrite Hscore. split.
  - apply filter_below. intros i Hi. apply Hans. unfold correctAt in Hi.
    destruct (array_get (PlainQuiz.answers s) i); [by eexists | done].
  - rewrite <- Hslots. apply correctIn_length_le.
Qed.

Lemma PlainQuiz_score_counts_correct_answers_witness :
  PlainQuiz.reachable sampleBatch PlainQuiz.finishedState /\
  PlainQuiz.score PlainQuiz.finishedState = 2 /\
  correctIn sampleBatch (PlainQuiz.answers PlainQuiz.finishedState) = [0; 2].
Proof.
  split; [exact PlainQuiz_finishedState_reachable|].
  destruct (PlainQuiz_score_counts_correct_answers sampleBatch
              PlainQuiz.finishedState PlainQuiz_finishedState_reachable)
    as [Hscore _].
  split; [rewrite Hscore|]; by vm_compute.
Defined.

(** X14: the reset button of the quiz over a fixed list leads back to the
    state of the first render, in all seven cells, from whatever state it is
    pressed in. *)
Theorem PlainQuiz_reset_is_a_fresh_start
    (questions : list Question) (s s' : PlainQuiz.State) :
  PlainQuiz.dispatch questions PlainQuiz.ClickReset s = Some s' ->
  s' = PlainQuiz.initialState questions /\ PlainQuiz.isComplete s = true.
Proof.
  unfold PlainQuiz.dispatch, PlainQuiz.render.
  destruct (PlainQuiz.isComplete s); simpl.
  - by intros [= <-].
  - by destruct (questions !! PlainQuiz.currentQuestionIndex s).
Qed.

Lemma PlainQuiz_reset_is_a_fresh_start_witness :
  PlainQuiz.dispatch sampleBatch PlainQuiz.ClickReset PlainQuiz.finishedState
    = Some (PlainQuiz.initialState sampleBatch) /\
  PlainQuiz.isComplete PlainQuiz.finishedState = true.
Proof.
  split; [reflexivity|].
  by apply (PlainQuiz_reset_is_a_fresh_start sampleBatch
              PlainQuiz.finishedState (PlainQuiz.initialState sampleBatch)).
Defined.

(** ** The route and the schema, once more *)

Lemma property_files (files : list JsValue) :
  getNamed "files" (uploadBody files) = Some (JsArray files).
Proof. unfold uploadBody, getNamed, property. by rewrite lookup_singleton_eq. Qed.

(** X15: the route reads [files[0].data] and nothing else of the body.  Files
    after the first do not change the request; an empty file list and a body
    without [files] end in a [TypeError] before any request is made; a first
    file that is an object is passed on with whatever its [data] is, even
    [undefined].  Every request asks for an array over [questionSchema] and
    declares the file a PDF. *)
Theorem POST_reads_only_the_first_file :
  (forall first rest,
     POST_request (uploadBody (first :: rest)) =
     POST_request (uploadBody [first])) /\
  POST_request (uploadBody []) = None /\
  (forall fields,
     fields !! "files" = None -> POST_request (JsObject fields) = None) /\
  (forall fields rest,
     option_map requestFile
       (POST_request (uploadBody (JsObject fields :: rest))) =
     Some (property fields "data")) /\
  (forall body request,
     POST_request body = Some request ->
     requestSchema request = questionSchema /\
     requestOutput request = "array" /\
     requestMimeType request = "application/pdf").
Proof.
  split; [|split; [|split; [|split]]].
  - intros first rest. unfold POST_request. by rewrite !property_files.
  - unfold POST_request. by rewrite property_files.
  - intros fields Hf. unfold POST_request, getNamed, property.
    by rewrite Hf.
  - intros fields rest. unfold POST_request. by rewrite property_files.
  - intros body request. unfold POST_request.
    destruct (getNamed "files" body) as [files|]; [|done]. simpl.
    destruct (getFirst files) as [first|]; [|done]. simpl.
    destruct (getNamed "data" first) as [data|]; [|done]. simpl.
    by intros [= <-].
Qed.

Lemma forallb_isText_strings (texts : list string) :
  forallb isText (JsString <$> texts) = true.
Proof. induction texts as [|t texts IH]; [done | exact IH]. Qed.

Lemma isQuestionValue_toJs (q : Question) :
  isQuestionValue (toJs q) =
  bool_decide (length (options q) = 4) &&
  bool_decide (answer q ∈ ["A"; "B"; "C"; "D"]).
Proof.
  unfold toJs, jsQuestion, isQuestionValue.
  replace (property _ "question") with (JsString (question q))
    by (by vm_compute).
  replace (property _ "options") with (JsArray (JsString <$> options q))
    by (by vm_compute).
  replace (property _ "answer") with (JsString (answer q))
    by (by vm_compute).
  replace (property _ "explanation") with (JsString (explanation q))
    by (by vm_compute).
  simpl. rewrite forallb_isText_strings, length_fmap.
  by rewrite !andb_true_r.
Qed.

(** X16: a typed question, written out as a JavaScript object, passes
    [questionSchema] exactly when it has four options and its answer is one
    of A, B, C, D. *)
Theorem typed_question_passes_schema (q : Question) :
  safeParse questionSchema (toJs q) = ParseSuccess <->
  length (options q) = 4 /\ answer q ∈ answerLabels.
Proof.
  assert (Hparse : safeParse questionSchema (toJs q) = ParseSuccess <->
                   parse questionSchema [] (toJs q) = []).
  { unfold safeParse. by destruct (parse questionSchema [] (toJs q)). }
  rewrite Hparse, parse_question_nil, isQuestionValue_toJs.
  by rewrite andb_true_iff, !bool_decide_eq_true.
Qed.

(** X17: [questionSchema] accepts exactly the objects of the wire contract:
    a string [question], an array [options] of four strings, an [answer]
    among A, B, C, D and a string [explanation]; other keys are allowed. *)
Theorem questionSchema_accepts_the_wire_contract (v : JsValue) :
  safeParse questionSchema v = ParseSuccess <->
  exists fields text o1 o2 o3 o4 label why,
    v = JsObject fields /\
    fields !! "question" = Some (JsString text) /\
    fields !! "options" =
      Some (JsArray [JsString o1; JsString o2; JsString o3; JsString o4]) /\
    fields !! "answer" = Some (JsString label) /\
    label ∈ ["A"; "B"; "C"; "D"] /\
    fields !! "explanation" = Some (JsString why).
Proof.
  assert (Hparse : safeParse questionSchema v = ParseSuccess <->
                   parse questionSchema [] v = []).
  { unfold safeParse. by destruct (parse questionSchema [] v). }
  rewrite Hparse, parse_question_nil. split.
  - destruct v as [| | | | |items|fields]; try done.
    unfold isQuestionValue, property.
    rewrite !andb_true_iff. intros [[[Hq Ho] Ha] He].
    destruct (fields !! "question") as [[| | | |text| |]|] eqn:Eq; try done.
    destruct (fields !! "options") as [[| | | | |opts|]|] eqn:Eo; try done.
    destruct (fields !! "answer") as [[| | | |label| |]|] eqn:Ea; try done.
    destruct (fields !! "explanation") as [[| | | |why| |]|] eqn:Ee;
      try done.
    simpl in Ho, Ha. apply andb_true_iff in Ho as [Hlen Hopts].
    apply bool_decide_eq_true in Hlen, Ha.
    destruct opts as [|[| | | |o1| |] [|[| | | |o2| |] [|[| | | |o3| |]
      [|[| | | |o4| |] [|]]]]]; try done.
    by exists fields, text, o1, o2, o3, o4, label, why.
  - intros (fields & text & o1 & o2 & o3 & o4 & label & why
            & -> & Hq & Ho & Ha & Hin & He).
    unfold isQuestionValue, property. rewrite Hq, Ho, Ha, He. simpl.
    by rewrite bool_decide_eq_true_2.
Qed.

(** X18: a batch of well-formed questions that is not four long fails with
    exactly one issue, raised on the array itself: too small below four, too
    big above.  [onFinish] then throws the message of that issue alone. *)
Theorem wrong_length_is_the_only_issue
    (message : ZodIssue -> string) (items : list JsValue) :
  forallb isQuestionValue items = true ->
  length items <> 4 ->
  let issue :=
    mkIssue (if decide (4 < length items) then too_big 4 else too_small 4) []
  in
  safeParse questionsSchema (JsArray items) = ParseError [issue] /\
  onFinish message (JsArray items) = Failed (message issue).
Proof.
  intros Hitems Hlen issue.
  assert (Hparse : parse questionsSchema [] (JsArray items) = [issue]).
  { unfold questionsSchema. cbn -[lengthIssues questionSchema].
    assert (Hnone : forall f : nat -> JsValue -> list ZodIssue,
              (forall i x, f i x = [] <-> isQuestionValue x = true) ->
              concat (imap f items) = []).
    { intros f Hf. by apply (concat_imap_nil f isQuestionValue). }
    rewrite Hnone by (intros; apply parse_question_nil).
    rewrite app_nil_r. subst issue. unfold lengthIssues.
    repeat case_decide; done || lia. }
  unfold onFinish, safeParse. rewrite Hparse. split; [done|].
  simpl. done.
Qed.

Lemma wrong_length_is_the_only_issue_witness :
  safeParse questionsSchema (JsArray [goodQuestion; goodQuestion; goodQuestion])
    = ParseError [mkIssue (too_small 4) []] /\
  onFinish (fun _ => "short") (JsArray [goodQuestion; goodQuestion; goodQuestion])
    = Failed "short".
Proof.
  apply (wrong_length_is_the_only_issue (fun _ => "short")
           [goodQuestion; goodQuestion; goodQuestion]);
    [by vm_compute | simpl; lia].
Defined.
